(** * ksu-scraper: a single-host crawler (funcs.py, crawler.py)

    A shallow embedding of the URL pipeline, the persistent index, the
    frontier file and the crawler state of the repository, with the
    properties its specification states about them.

    Conventions of the embedding.
    - A Python [str] is a [string]; a character is the code point it
      carries, so the development covers strings whose code points are
      below 256.
    - A raised exception is a value of [result]; a [try]/[except] of the
      source is a [match] on it.
    - Files are explicit state ([FS]); a write that the operating system may
      refuse takes the outcome ([Faults]) as an argument. *)

From Stdlib Require Import ZArith Ascii String Bool Lia.
From Stdlib Require Import DecimalString DecimalZ DecimalPos.
From stdpp Require Import base tactics option list gmap strings.

Local Open Scope char_scope.
Local Open Scope stdpp_scope.

(** ** Exceptions *)

Inductive exception := ValueError | OSError | EmptyDataError | ParserError.

Inductive result (A : Type) : Type :=
| Ok (a : A)
| Raise (e : exception).
Arguments Ok {A} a.
Arguments Raise {A} e.

Global Instance result_ret : MRet result := λ A a, Ok a.

Global Instance result_bind : MBind result := λ A B k r,
  match r with
  | Ok a => k a
  | Raise e => Raise e
  end.

(** ** Python string methods *)

Module Str.

Definition code (c : ascii) : N := N_of_ascii c.

Definition between (lo hi : N) (c : ascii) : bool :=
  ((lo <=? code c) && (code c <=? hi))%N.

(** [c.isspace()] for code points below 256. *)
Definition isspace (c : ascii) : bool :=
  between 9 13 c || between 28 32 c || (code c =? 133)%N || (code c =? 160)%N.

Definition isupper_ascii (c : ascii) : bool := between 65 90 c.
Definition islower_ascii (c : ascii) : bool := between 97 122 c.
Definition isdigit_ascii (c : ascii) : bool := between 48 57 c.

(** [c.isascii() and c.isalpha()] *)
Definition isalpha_ascii (c : ascii) : bool := isupper_ascii c || islower_ascii c.

(** [c.lower()] for code points below 256: A-Z and the Latin-1 capitals
    (0xC0-0xDE except the multiplication sign 0xD7). *)
Definition lower_char (c : ascii) : ascii :=
  if isupper_ascii c || (between 192 222 c && negb (code c =? 215)%N)
  then ascii_of_N (code c + 32) else c.

Fixpoint lower (s : string) : string :=
  match s with
  | "" => ""
  | String c s' => String (lower_char c) (lower s')
  end.

Fixpoint forallb (p : ascii → bool) (s : string) : bool :=
  match s with
  | "" => true
  | String c s' => p c && forallb p s'
  end.

Fixpoint existsb (p : ascii → bool) (s : string) : bool :=
  match s with
  | "" => false
  | String c s' => p c || existsb p s'
  end.

(** [c in s] for a single character [c]. *)
Definition has (c : ascii) (s : string) : bool := existsb (Ascii.eqb c) s.

(** [c in chars] as a predicate on [c]. *)
Definition among (chars : string) (c : ascii) : bool := has c chars.

Fixpoint startswith (p s : string) : bool :=
  match p, s with
  | "", _ => true
  | String a p', String b s' => Ascii.eqb a b && startswith p' s'
  | String _ _, "" => false
  end.

(** [sub in s] *)
Fixpoint contains (sub s : string) : bool :=
  startswith sub s ||
  match s with
  | "" => false
  | String _ s' => contains sub s'
  end.

(** [s.lstrip(...)]: drop the leading characters that satisfy [p]. *)
Fixpoint lstrip_p (p : ascii → bool) (s : string) : string :=
  match s with
  | "" => ""
  | String c s' => if p c then lstrip_p p s' else s
  end.

(** [s.rstrip(...)]: drop the trailing characters that satisfy [p]. *)
Fixpoint rstrip_p (p : ascii → bool) (s : string) : string :=
  match s with
  | "" => ""
  | String c s' =>
      match rstrip_p p s' with
      | "" => if p c then "" else String c ""
      | r => String c r
      end
  end.

Definition strip_p (p : ascii → bool) (s : string) : string :=
  rstrip_p p (lstrip_p p s).

(** [s.strip()] *)
Definition strip (s : string) : string := strip_p isspace s.

(** [s.endswith(c)] for a single character. *)
Fixpoint endswith_char (c : ascii) (s : string) : bool :=
  match s with
  | "" => false
  | String a "" => Ascii.eqb a c
  | String _ s' => endswith_char c s'
  end.

(** [s.replace(c, "")] for every [c] that satisfies [p]. *)
Fixpoint remove_p (p : ascii → bool) (s : string) : string :=
  match s with
  | "" => ""
  | String c s' => if p c then remove_p p s' else String c (remove_p p s')
  end.

(** The longest prefix without a character satisfying [p], and the rest. *)
Fixpoint break (p : ascii → bool) (s : string) : string * string :=
  match s with
  | "" => ("", "")
  | String c s' =>
      if p c then ("", s)
      else let '(a, b) := break p s' in (String c a, b)
  end.

(** [s.partition(c)], the separator reported as a flag. *)
Definition partition (c : ascii) (s : string) : string * bool * string :=
  match break (Ascii.eqb c) s with
  | (a, String _ b) => (a, true, b)
  | (_, "") => (s, false, "")
  end.

(** [s.rpartition(c)], the separator reported as a flag. *)
Fixpoint rpartition (c : ascii) (s : string) : string * bool * string :=
  match s with
  | "" => ("", false, "")
  | String a s' =>
      match rpartition c s' with
      | (b, true, r) => (String a b, true, r)
      | (_, false, _) =>
          if Ascii.eqb a c then ("", true, s') else ("", false, s)
      end
  end.

(** [s.split(c)] *)
Fixpoint split (c : ascii) (s : string) : list string :=
  match s with
  | "" => [""]
  | String a s' =>
      if Ascii.eqb a c then "" :: split c s'
      else match split c s' with
           | h :: t => String a h :: t
           | [] => [String a ""]
           end
  end.

(** [sep.join(l)] *)
Fixpoint join (sep : string) (l : list string) : string :=
  match l with
  | [] => ""
  | [x] => x
  | x :: l' => x +:+ sep +:+ join sep l'
  end.

(** [s[:-1]] *)
Fixpoint drop_last (s : string) : string :=
  match s with
  | "" => ""
  | String _ "" => ""
  | String c s' => String c (drop_last s')
  end.

(** [s[n:]] *)
Fixpoint drop (n : nat) (s : string) : string :=
  match n, s with
  | O, _ => s
  | S n', String _ s' => drop n' s'
  | S _, "" => ""
  end.

(** [not s] *)
Definition is_empty (s : string) : bool :=
  match s with "" => true | _ => false end.

(** [x in l] for a list of strings. *)
Definition member (x : string) (l : list string) : bool :=
  List.existsb (String.eqb x) l.

(** [int(s, 10)] and [int(s, 16)] on a string of digits. *)
Definition digit_value (c : ascii) : N :=
  if isdigit_ascii c then code c - 48
  else if between 97 102 c then code c - 87
  else code c - 55.

Fixpoint int_of_digits (base : N) (acc : N) (s : string) : N :=
  match s with
  | "" => acc
  | String c s' => int_of_digits base (acc * base + digit_value c) s'
  end.

End Str.

(** ** [ipaddress]: which strings the address constructors accept *)

Module Ipaddress.
Import Str.

(** [IPv4Address._parse_octet] returns rather than raises. *)
Definition parse_octet_ok (octet_str : string) : bool :=
  negb (is_empty octet_str)
  && forallb isdigit_ascii octet_str
  && (String.length octet_str <=? 3)%nat
  && (String.eqb octet_str "0" || negb (startswith "0" octet_str))
  && (int_of_digits 10 0 octet_str <=? 255)%N.

(** [IPv4Address(address)] returns rather than raises. *)
Definition IPv4Address_ok (address : string) : bool :=
  negb (has "/" address)
  && negb (is_empty address)
  && (length (split "." address) =? 4)%nat
  && List.forallb parse_octet_ok (split "." address).

Definition is_hex_digit (c : ascii) : bool :=
  isdigit_ascii c || between 65 70 c || between 97 102 c.

(** [_BaseV6._parse_hextet] returns rather than raises. *)
Definition parse_hextet_ok (hextet_str : string) : bool :=
  forallb is_hex_digit hextet_str
  && (String.length hextet_str <=? 4)%nat
  && negb (is_empty hextet_str).

(** The indices [i] in [range(1, len(parts) - 1)] with [not parts[i]]. *)
Definition skip_indices (parts : list string) : list nat :=
  List.filter
    (fun i => is_empty (nth i parts "x"))
    (seq 1 (length parts - 2)).

(** [_BaseV6._ip_int_from_string] returns rather than raises.  An IPv4
    suffix is replaced by two hextets; only their validity matters here,
    and what ['%x'] prints for a 16-bit value is always a valid hextet. *)
Definition ip_int_from_string_ok (ip_str : string) : bool :=
  negb (is_empty ip_str) &&
  let parts := split ":" ip_str in
  (3 <=? length parts)%nat &&
  let last_part := List.last parts "" in
  (if has "." last_part then IPv4Address_ok last_part else true) &&
  let parts :=
    if has "." last_part then removelast parts ++ ["0"; "0"] else parts in
  (length parts <=? 9)%nat &&
  let first_empty := is_empty (nth 0 parts "") in
  let last_empty := is_empty (List.last parts "") in
  match skip_indices parts with
  | [] =>
      (length parts =? 8)%nat && negb first_empty && negb last_empty
      && List.forallb parse_hextet_ok parts
  | [skip_index] =>
      let parts_hi := skip_index in
      let parts_lo := (length parts - skip_index - 1)%nat in
      let parts_hi' := if first_empty then (parts_hi - 1)%nat else parts_hi in
      let parts_lo' := if last_empty then (parts_lo - 1)%nat else parts_lo in
      (if first_empty then (parts_hi' =? 0)%nat else true)
      && (if last_empty then (parts_lo' =? 0)%nat else true)
      && (1 <=? 8 - (parts_hi' + parts_lo'))%nat
      && List.forallb parse_hextet_ok (firstn parts_hi' parts)
      && List.forallb parse_hextet_ok
           (skipn (length parts - parts_lo') parts)
  | _ => false
  end.

(** [IPv6Address(address)] returns rather than raises. *)
Definition IPv6Address_ok (address : string) : bool :=
  negb (has "/" address) &&
  let '(addr, sep, scope_id) := partition "%" address in
  (if sep then negb (is_empty scope_id) && negb (has "%" scope_id)
   else true)
  && ip_int_from_string_ok addr.

End Ipaddress.

(** ** [urllib.parse] (CPython 3.11): [urlparse], [urlunparse], [urljoin] *)

Module Urllib.
Import Str.

Record ParseResult := mkParseResult {
  scheme : string;
  netloc : string;
  path : string;
  params : string;
  query : string;
  fragment : string
}.

Definition uses_relative : list string :=
  [""; "ftp"; "http"; "gopher"; "nntp"; "imap"; "wais"; "file"; "https";
   "shttp"; "mms"; "prospero"; "rtsp"; "rtspu"; "sftp"; "svn"; "svn+ssh";
   "ws"; "wss"].

Definition uses_netloc : list string :=
  [""; "ftp"; "http"; "gopher"; "nntp"; "telnet"; "imap"; "wais"; "file";
   "mms"; "https"; "shttp"; "snews"; "prospero"; "rtsp"; "rtspu"; "rsync";
   "svn"; "svn+ssh"; "sftp"; "nfs"; "git"; "git+ssh"; "ws"; "wss"].

Definition uses_params : list string :=
  [""; "ftp"; "hdl"; "prospero"; "http"; "imap"; "https"; "shttp"; "rtsp";
   "rtspu"; "sip"; "sips"; "mms"; "sftp"; "tel"].

Definition scheme_chars : string :=
  "abcdefghijklmnopqrstuvwxyzABCDEFGHIJKLMNOPQRSTUVWXYZ0123456789+-.".

(** [_WHATWG_C0_CONTROL_OR_SPACE]: code points 0 to 0x20. *)
Definition c0_control_or_space (c : ascii) : bool := (code c <=? 32)%N.

(** [_UNSAFE_URL_BYTES_TO_REMOVE]: tab, carriage return, line feed. *)
Definition unsafe_url_byte (c : ascii) : bool :=
  (code c =? 9)%N || (code c =? 13)%N || (code c =? 10)%N.

Definition _splitparams (url : string) : string * string :=
  if has "/" url then
    (* i = url.find(';', url.rfind('/')) *)
    let '(dir, _, seg) := rpartition "/" url in
    match partition ";" seg with
    | (a, true, b) => (dir +:+ "/" +:+ a, b)
    | (_, false, _) => (url, "")
    end
  else
    match partition ";" url with
    | (a, true, b) => (a, b)
    | (_, false, _) => (drop_last url, url)
    end.

(** [_splitnetloc(url, 2)] *)
Definition _splitnetloc (url : string) : string * string :=
  break (among "/?#") (drop 2 url).

(** [_checknetloc] raises only when NFKC normalisation of a non-ASCII
    netloc produces one of [/?#@:]; no code point below 256 normalises to
    a string containing one of them, so it returns. *)
Definition _checknetloc (netloc : string) : result unit := Ok tt.

(** [re.match(r"\Av[a-fA-F0-9]+\..+\Z", hostname)] *)
Definition ipvfuture_match (hostname : string) : bool :=
  match hostname with
  | String "v" rest =>
      match break (fun c => negb (Ipaddress.is_hex_digit c)) rest with
      | (String _ _, String "." (String c tail)) =>
          negb (has "010" (String c tail))
      | _ => false
      end
  | _ => false
  end.

Definition _check_bracketed_host (hostname : string) : result unit :=
  if startswith "v" hostname then
    if ipvfuture_match hostname then Ok tt else Raise ValueError
  else
    (* ip = ipaddress.ip_address(hostname) *)
    if Ipaddress.IPv4Address_ok hostname then Raise ValueError
    else if Ipaddress.IPv6Address_ok hostname then Ok tt
    else Raise ValueError.

Definition _check_bracketed_netloc (netloc : string) : result unit :=
  let '(_, _, hostname_and_port) := rpartition "@" netloc in
  let '(before_bracket, have_open_br, bracketed) :=
    partition "[" hostname_and_port in
  if have_open_br then
    if negb (is_empty before_bracket) then Raise ValueError
    else
      let '(hostname, _, port) := partition "]" bracketed in
      if negb (is_empty port) && negb (startswith ":" port)
      then Raise ValueError
      else _check_bracketed_host hostname
  else
    let '(hostname, _, port) := partition ":" hostname_and_port in
    _check_bracketed_host hostname.

(** [url.split(c, 1)] when [c in url], else [(url, "")]. *)
Definition split_once (c : ascii) (url : string) : string * string :=
  if has c url then let '(a, _, b) := partition c url in (a, b)
  else (url, "").

(** The scheme test of [urlsplit]: [i = url.find(':')], [i > 0], [url[0]]
    an ASCII letter and [url[:i]] made of [scheme_chars]. *)
Definition split_scheme (url scheme : string) : string * string :=
  match partition ":" url with
  | (String c0 pre, true, post) =>
      if isalpha_ascii c0 && forallb (among scheme_chars) (String c0 pre)
      then (lower (String c0 pre), post)
      else (scheme, url)
  | _ => (scheme, url)
  end.

(** The bracket tests of [urlsplit] on the netloc. *)
Definition check_brackets (netloc : string) : result unit :=
  if (has "[" netloc && negb (has "]" netloc))
     || (has "]" netloc && negb (has "[" netloc))
  then Raise ValueError
  else if has "[" netloc && has "]" netloc
  then _check_bracketed_netloc netloc
  else Ok tt.

Definition urlsplit (url scheme : string)
  : result (string * string * string * string * string) :=
  let url := lstrip_p c0_control_or_space url in
  let scheme := strip_p c0_control_or_space scheme in
  let url := remove_p unsafe_url_byte url in
  let scheme := remove_p unsafe_url_byte scheme in
  let '(scheme, url) := split_scheme url scheme in
  '(netloc, url) ←
    (if startswith "//" url then
       let '(netloc, url) := _splitnetloc url in
       _ ← check_brackets netloc; Ok (netloc, url)
     else Ok ("", url));
  let '(url, fragment) := split_once "#" url in
  let '(url, query) := split_once "?" url in
  _ ← _checknetloc netloc;
  Ok (scheme, netloc, url, query, fragment).

Definition urlparse (url scheme : string) : result ParseResult :=
  '(scheme, netloc, url, query, fragment) ← urlsplit url scheme;
  let '(url, params) :=
    if member scheme uses_params && has ";" url then _splitparams url
    else (url, "") in
  Ok (mkParseResult scheme netloc url params query fragment).

Definition urlunsplit (scheme netloc url query fragment : string) : string :=
  let url :=
    if negb (is_empty netloc)
       || (negb (is_empty scheme) && member scheme uses_netloc
           && negb (startswith "//" url))
    then
      let url :=
        if negb (is_empty url) && negb (startswith "/" url)
        then "/" +:+ url else url in
      "//" +:+ netloc +:+ url
    else url in
  let url := if negb (is_empty scheme) then scheme +:+ ":" +:+ url else url in
  let url := if negb (is_empty query) then url +:+ "?" +:+ query else url in
  if negb (is_empty fragment) then url +:+ "#" +:+ fragment else url.

Definition urlunparse (p : ParseResult) : string :=
  let url :=
    if negb (is_empty (params p)) then path p +:+ ";" +:+ params p
    else path p in
  urlunsplit (scheme p) (netloc p) url (query p) (fragment p).

(** [segments[1:-1] = filter(None, segments[1:-1])] *)
Definition filter_middle (segments : list string) : list string :=
  match segments with
  | [] => []
  | [x] => [x]
  | x :: rest =>
      x :: List.filter (fun s => negb (is_empty s)) (removelast rest)
        ++ [List.last rest ""]
  end.

(** The loop of [urljoin] over [segments]. *)
Definition resolve_step (resolved_path : list string) (seg : string)
  : list string :=
  if String.eqb seg ".." then removelast resolved_path
  else if String.eqb seg "." then resolved_path
  else resolved_path ++ [seg].

Definition urljoin (base url : string) : result string :=
  if is_empty base then Ok url
  else if is_empty url then Ok base
  else
    b ← urlparse base "";
    u ← urlparse url (scheme b);
    if negb (String.eqb (scheme u) (scheme b))
       || negb (member (scheme u) uses_relative)
    then Ok url
    else if member (scheme u) uses_netloc && negb (is_empty (netloc u))
    then Ok (urlunparse u)
    else
      let netloc' :=
        if member (scheme u) uses_netloc then netloc b else netloc u in
      if is_empty (path u) && is_empty (params u) then
        let query' := if is_empty (query u) then query b else query u in
        Ok (urlunparse (mkParseResult (scheme u) netloc' (path b) (params b)
                          query' (fragment u)))
      else
        let base_parts := split "/" (path b) in
        let base_parts :=
          if negb (is_empty (List.last base_parts ""))
          then removelast base_parts else base_parts in
        let segments :=
          if startswith "/" (path u) then split "/" (path u)
          else filter_middle (base_parts ++ split "/" (path u)) in
        let resolved_path := fold_left resolve_step segments [] in
        let resolved_path :=
          if member (List.last segments "") ["."; ".."]
          then resolved_path ++ [""] else resolved_path in
        let joined := join "/" resolved_path in
        let path' := if is_empty joined then "/" else joined in
        Ok (urlunparse (mkParseResult (scheme u) netloc' path' (params u)
                          (query u) (fragment u))).

End Urllib.

(** ** funcs.py: the pure functions *)

Definition get_host_from_url (url : string) : string :=
  match Urllib.urlparse url "" with
  | Ok parsed_url => Urllib.netloc parsed_url
  | Raise _ => ""
  end.

Definition non_html_extensions : list string :=
  ["jpg"; "jpeg"; "png"; "gif"; "bmp"; "svg"; "webp";
   "pdf"; "doc"; "docx"; "xls"; "xlsx"; "ppt"; "pptx"; "ppts"; "psd"; "rdf";
   "m4v";
   "zip"; "rar"; "gz"; "tar"; "7z";
   "css"; "js";
   "xml"; "json"; "csv"; "txt";
   "mp3"; "mp4"; "avi"; "mov"; "wav";
   "exe"; "dmg"; "iso"].

Definition is_likely_html_page (url : string) : bool :=
  match Urllib.urlparse url "" with
  | Ok parsed =>
      let path := Urllib.path parsed in
      if Str.is_empty path || String.eqb path "/" then true
      else
        let last_segment := List.last (Str.split "/" path) "" in
        if Str.has "." last_segment then
          let extension :=
            Str.lower (List.last (Str.split "." last_segment) "") in
          if Str.member extension non_html_extensions then false else true
        else true
  | Raise _ => false
  end.

Definition normalize_and_clean_url (href base_url : string) : option string :=
  match
    absolute_url ← Urllib.urljoin base_url (Str.strip href);
    url_parts ← Urllib.urlparse absolute_url "";
    Ok (absolute_url, url_parts)
  with
  | Ok (_, url_parts) =>
      let scheme := Urllib.scheme url_parts in
      let netloc := Urllib.netloc url_parts in
      if negb (Str.member scheme ["http"; "https"]) || Str.is_empty netloc
      then None
      else
        let clean_url :=
          Urllib.urlunparse
            (Urllib.mkParseResult scheme netloc (Urllib.path url_parts)
               "" "" "") in
        let clean_url :=
          if (String.length (scheme +:+ "://" +:+ netloc) + 1
              <? String.length clean_url)%nat
             && Str.endswith_char "/" clean_url
          then Str.rstrip_p (Ascii.eqb "/") clean_url
          else clean_url in
        Some clean_url
  | Raise _ => None
  end.

Definition is_url_valid_for_host (url required_host_substring : string) : bool :=
  if Str.is_empty url then false
  else
    let host := get_host_from_url url in
    if Str.is_empty host then false
    else
      Str.contains (Str.lower required_host_substring) (Str.lower host)
      && is_likely_html_page url.

(** ** funcs.py: files

    [index.csv] is kept as its rows of cells (what [csv.writer] writes and
    [pandas.read_csv] tokenises), [crawl_queue.txt] as its text, the
    [files/] directory as a map from path to content. *)

Inductive file (A : Type) : Type :=
| Absent
| Unreadable
| Content (a : A).
Arguments Absent {A}.
Arguments Unreadable {A}.
Arguments Content {A} a.

Record FS := mkFS {
  index_csv : file (list (list string));
  crawl_queue_txt : file string;
  files : gmap string string
}.

(** [os.path.exists] *)
Definition exists_ {A} (f : file A) : bool :=
  match f with Absent => false | _ => true end.

Definition FILES_DIR : string := "files".

(** [str(index)] and the reading of a cell as a number by [pd.to_numeric].
    Only plain decimal integers are read as numbers here; any other cell
    counts as not numeric. *)
Definition str_of_int (z : Z) : string :=
  DecimalString.NilZero.string_of_int (Z.to_int z).

Definition to_numeric (cell : string) : option Z :=
  Z.of_int <$> DecimalString.NilZero.int_of_string cell.

(** [pandas.read_csv]: the first row is the header.  When the first data
    row has more fields than the header, the extra leading fields are taken
    as the row index ([leading_cols]); a later row with more fields than
    that is a tokenising error; shorter rows are padded with missing
    values.  Cells are kept as text. *)
Record DataFrame := mkDataFrame {
  columns : list string;
  leading_cols : nat;
  data : list (list string)
}.

Definition read_csv (f : file (list (list string))) : result DataFrame :=
  match f with
  | Absent => Raise OSError
  | Unreadable => Raise ParserError
  | Content [] => Raise EmptyDataError
  | Content (header :: body) =>
      let width :=
        match body with
        | [] => length header
        | first :: _ => Nat.max (length header) (length first)
        end in
      if List.existsb (fun row => (width <? length row)%nat) body
      then Raise ParserError
      else Ok (mkDataFrame header (width - length header) body)
  end.

(** [df.empty] *)
Definition empty (df : DataFrame) : bool :=
  match data df with [] => true | _ => false end.

Fixpoint position (name : string) (l : list string) : option nat :=
  match l with
  | [] => None
  | x :: l' => if String.eqb name x then Some O else S <$> position name l'
  end.

(** [df[name]] when [name in df.columns]; a missing cell is [None]. *)
Definition column (name : string) (df : DataFrame)
  : option (list (option string)) :=
  j ← position name (columns df);
  Some (List.map (fun row => row !! (leading_cols df + j)%nat) (data df)).

(** [int(numeric_indices.max())] over a non-empty list. *)
Definition maximum (l : list Z) : Z :=
  match l with
  | [] => 0%Z
  | x :: l' => fold_left Z.max l' x
  end.

Definition get_max_index (fs : FS) : Z :=
  if negb (exists_ (index_csv fs)) then 0%Z
  else
    match read_csv (index_csv fs) with
    | Ok df =>
        match column "index" df with
        | Some cells =>
            if empty df then 0%Z
            else
              let numeric_indices := omap (fun cell => cell ≫= to_numeric) cells in
              match numeric_indices with
              | [] => 0%Z
              | _ => maximum numeric_indices
              end
        | None => 0%Z
        end
    | Raise EmptyDataError => 0%Z
    | Raise _ => 0%Z
    end.

(** [url in df['url'].values]: the cells are compared as text, which is what
    pandas gives for a column that holds URLs; an argument that reads as a
    number or as one of pandas' missing-value markers is outside the model. *)
Definition url_exists_in_index (url : string) (fs : FS) : bool :=
  if negb (exists_ (index_csv fs)) then false
  else
    match read_csv (index_csv fs) with
    | Ok df =>
        match column "url" df with
        | Some cells =>
            if empty df then false
            else List.existsb (fun cell => bool_decide (cell = Some url)) cells
        | None => false
        end
    | Raise EmptyDataError => false
    | Raise _ => false
    end.

(** What the operating system does with the writes of one call of
    [write_content_file]: each flag says that the step raises [OSError].
    A refused write leaves the file as it was. *)
Record Faults := mkFaults {
  makedirs_fails : bool;
  content_write_fails : bool;
  index_append_fails : bool
}.

Definition no_faults : Faults := mkFaults false false false.

(** [writer.writerow(row)] on a file opened in append mode. *)
Definition append_row (row : list string) (f : file (list (list string)))
  : file (list (list string)) :=
  match f with
  | Absent => Content [row]
  | Unreadable => Unreadable
  | Content rows => Content (rows ++ [row])
  end.

Definition write_content_file (flt : Faults) (content : string) (index : Z)
    (url : string) (fs : FS) : bool * FS :=
  if url_exists_in_index url fs then (false, fs)
  else if makedirs_fails flt then (false, fs)
  else
    let file_path := FILES_DIR +:+ "/" +:+ str_of_int index +:+ ".txt" in
    if content_write_fails flt then (false, fs)
    else
      let fs :=
        mkFS (index_csv fs) (crawl_queue_txt fs)
          (<[file_path := content]> (files fs)) in
      if index_append_fails flt then (false, fs)
      else
        (true,
         mkFS (append_row [str_of_int index; file_path; url] (index_csv fs))
           (crawl_queue_txt fs) (files fs)).

(** Reading a text file with universal newlines: ["\r\n"] and ["\r"] become
    ["\n"]. *)
Fixpoint universal_newlines (s : string) : string :=
  match s with
  | "" => ""
  | String c s' =>
      if Ascii.eqb c "013" then
        String "010"
          match s' with
          | String "010" s'' => universal_newlines s''
          | _ => universal_newlines s'
          end
      else String c (universal_newlines s')
  end.

(** The lines that [for line in f] yields, without their terminators
    ([line.strip()] removes a terminator anyway). *)
Definition lines_of (text : string) : list string :=
  Str.split "010" (universal_newlines text).

Definition load_queue_from_file (fs : FS) : list string :=
  match crawl_queue_txt fs with
  | Absent => []
  | Unreadable => []
  | Content text =>
      List.map Str.strip
        (List.filter (fun line => negb (Str.is_empty (Str.strip line)))
           (lines_of text))
  end.

(** [write_fails] says that opening or writing the file raises. *)
Definition save_queue_to_file (write_fails : bool) (queue : list string)
    (fs : FS) : FS :=
  if write_fails then fs
  else
    mkFS (index_csv fs)
      (Content (fold_left (fun text url => text +:+ url +:+ String "010" "")
                  queue ""))
      (files fs).

(** ** crawler.py *)

(** A fetched and parsed page: the text [extract_html_text] returns for it
    and the [href] values of its anchors, in document order. *)
Record Soup := mkSoup {
  soup_text : string;
  soup_hrefs : list string
}.

Definition skipped_prefix (href : string) : bool :=
  Str.startswith "javascript:" href || Str.startswith "mailto:" href
  || Str.startswith "tel:" href || Str.startswith "#" href.

Definition extract_valid_urls (soup : Soup) (base_url : string)
    (required_host_substring : string) : gset string :=
  fold_left
    (fun (valid_urls : gset string) href =>
       if Str.is_empty href || skipped_prefix href then valid_urls
       else
         match normalize_and_clean_url href base_url with
         | Some cleaned_url =>
             if negb (Str.is_empty cleaned_url)
                && is_url_valid_for_host cleaned_url required_host_substring
             then valid_urls ∪ {[cleaned_url]}
             else valid_urls
         | None => valid_urls
         end)
    (soup_hrefs soup) ∅.

Record Crawler := mkCrawler {
  host_includes : string;
  current_index : Z;
  max_workers : nat;
  queue : list string;
  urls_in_session : gset string
}.

(** [self.queue.append(url); self.urls_in_session.add(url)] *)
Definition enqueue (url : string) (c : Crawler) : Crawler :=
  mkCrawler (host_includes c) (current_index c) (max_workers c)
    (queue c ++ [url]) (urls_in_session c ∪ {[url]}).

Definition _initialize_queue (fs : FS) (initial_urls : list string)
    (c : Crawler) : Crawler :=
  match queue c with
  | [] =>
      fold_left
        (fun c url =>
           if is_url_valid_for_host url (host_includes c)
              && negb (url_exists_in_index url fs)
           then if bool_decide (url ∉ urls_in_session c) then enqueue url c
                else c
           else c)
        initial_urls c
  | _ => c
  end.

(** [Crawler.__init__] *)
Definition Crawler_init (fs : FS) (host_includes : string)
    (initial_urls : list string) (max_workers : nat) : Crawler :=
  let queue := load_queue_from_file fs in
  _initialize_queue fs initial_urls
    (mkCrawler host_includes (get_max_index fs + 1) max_workers queue
       (list_to_set queue)).

(** The body of the loop of [_process_url] over [new_urls]: the dedup gate.
    The flag says whether [new_url] was added. *)
Definition try_enqueue (fs : FS) (c : Crawler) (new_url : string)
  : Crawler * bool :=
  if bool_decide (new_url ∉ urls_in_session c)
     && negb (url_exists_in_index new_url fs)
  then (enqueue new_url c, true)
  else (c, false).

(** [self.current_index += 1] after reading it. *)
Definition take_index (c : Crawler) : Z * Crawler :=
  (current_index c,
   mkCrawler (host_includes c) (current_index c + 1) (max_workers c)
     (queue c) (urls_in_session c)).

(** One call of [_process_url] that no other worker interleaves with.
    [page] is what [_fetch_page] returns.  The set [new_urls] is walked in
    the order [elements] gives; Python leaves that order open. *)
Definition _process_url (flt : Faults) (page : option Soup) (url : string)
    (w : Crawler * FS) : Crawler * FS :=
  let '(c, fs) := w in
  if url_exists_in_index url fs then (c, fs)
  else
    match page with
    | None => (c, fs)
    | Some soup =>
        let text_content := soup_text soup in
        let '(current_index, c) := take_index c in
        let '(file_written, fs) :=
          write_content_file flt text_content current_index url fs in
        if file_written then
          let new_urls := extract_valid_urls soup url (host_includes c) in
          (fold_left (fun c new_url => fst (try_enqueue fs c new_url))
             (elements new_urls) c, fs)
        else (c, fs)
    end.

(** The batch that one turn of the loop of [run] pops from the queue, with
    [n_futures] tasks pending. *)
Definition dequeue (n_futures : nat) (c : Crawler) : list string * Crawler :=
  let n := Nat.min (max_workers c - n_futures) (length (queue c)) in
  (take n (queue c),
   mkCrawler (host_includes c) (current_index c) (max_workers c)
     (drop n (queue c)) (urls_in_session c)).

(** The atomic steps of a run, in any interleaving: the coordinator pops a
    batch or checkpoints the queue; a worker takes an index, appends to the
    index, or passes one discovered link through the dedup gate.  The label is
    the URL the step appended to the queue, if any. *)
Inductive step : Crawler * FS → option string → Crawler * FS → Prop :=
| step_dequeue c fs n_futures :
    step (c, fs) None (snd (dequeue n_futures c), fs)
| step_checkpoint c fs write_fails :
    step (c, fs) None (c, save_queue_to_file write_fails (queue c) fs)
| step_take_index c fs :
    step (c, fs) None (snd (take_index c), fs)
| step_append c fs flt content index url :
    step (c, fs) None (c, snd (write_content_file flt content index url fs))
| step_enqueued c fs new_url :
    snd (try_enqueue fs c new_url) = true →
    step (c, fs) (Some new_url) (fst (try_enqueue fs c new_url), fs)
| step_skipped c fs new_url :
    snd (try_enqueue fs c new_url) = false →
    step (c, fs) None (fst (try_enqueue fs c new_url), fs).

(** A run and the URLs it appended to the queue, in order. *)
Inductive run : Crawler * FS → list string → Crawler * FS → Prop :=
| run_nil w : run w [] w
| run_step w1 w2 w3 l tr :
    run w1 tr w2 → step w2 l w3 → run w1 (tr ++ option_list l) w3.

(** The URLs [Crawler.__init__] appended to the queue: the seeds that
    passed, when the restored queue was empty. *)
Definition seeded (fs : FS) (c : Crawler) : list string :=
  match load_queue_from_file fs with
  | [] => queue c
  | _ => []
  end.

(** ** Vocabulary of the statements *)

(** What [urlsplit] guarantees about the netloc and the path it returns. *)
Record parts_ok (nl pa : string) : Prop := {
  nl_unsafe : Str.existsb Urllib.unsafe_url_byte nl = false;
  pa_unsafe : Str.existsb Urllib.unsafe_url_byte pa = false;
  pa_query : Str.has "?" pa = false;
  pa_fragment : Str.has "#" pa = false;
  nl_delims : Str.existsb (Str.among "/?#") nl = false;
  nl_brackets : nl ≠ "" → Urllib.check_brackets nl = Ok tt;
  pa_rooted : nl ≠ "" → pa = "" ∨ Str.startswith "/" pa = true
}.

(** The path of a normalized URL: every trailing ['/'] is gone, unless the
    path is ["/"] alone. *)
Definition final_path (pa : string) : string :=
  if (1 <? String.length pa)%nat && Str.endswith_char "/" pa
  then Str.rstrip_p (Ascii.eqb "/") pa else pa.

(** Stripping one trailing slash, in the words of the specification. *)
Definition strip_one_trailing_slash (s : string) : string :=
  if Str.endswith_char "/" s then Str.drop_last s else s.

(** The likely-HTML judgement in the words of the specification: the text
    after the last ['/'] of the path is the final segment, the text after
    its last ['.'], lowercased, is the extension. *)
Definition final_segment (path : string) : string :=
  snd (Str.rpartition "/" path).

Definition extension (segment : string) : option string :=
  if Str.has "." segment
  then Some (Str.lower (snd (Str.rpartition "." segment)))
  else None.

Definition likely_html (url : string) : bool :=
  match Urllib.urlparse url "" with
  | Ok parsed =>
      let path := Urllib.path parsed in
      Str.is_empty path || String.eqb path "/"
      || match extension (final_segment path) with
         | Some e => negb (Str.member e non_html_extensions)
         | None => true
         end
  | Raise _ => false
  end.

Definition IsInScope_as_stated (url hostSubstring : string) : bool :=
  Str.contains (Str.lower hostSubstring) (Str.lower (get_host_from_url url))
  && likely_html url.

(** A queue entry that the line format of [crawl_queue.txt] preserves: not
    empty, no whitespace at either end, and on one line. *)
Definition plain_entry (url : string) : Prop :=
  url ≠ "" ∧ Str.strip url = url
  ∧ Str.has "010" url = false ∧ Str.has "013" url = false.

(** The text [save_queue_to_file] writes. *)
Fixpoint text_of (queue : list string) : string :=
  match queue with
  | [] => ""
  | url :: queue' => url +:+ String "010" (text_of queue')
  end.

(** The index of the specification: a header row and one row per record. *)
Record IndexRecord := mkIndexRecord {
  sequentialIndex : Z;
  contentPath : string;
  sourceURL : string
}.

Definition index_header : list string := ["index"; "path"; "url"].

Definition row_of_record (r : IndexRecord) : list string :=
  [str_of_int (sequentialIndex r); contentPath r; sourceURL r].

Definition index_of_records (rs : list IndexRecord) : file (list (list string)) :=
  Content (index_header :: List.map row_of_record rs).

(** The path [write_content_file] gives the content file of an index. *)
Definition content_path (index : Z) : string :=
  FILES_DIR +:+ "/" +:+ str_of_int index +:+ ".txt".

(** Every queued URL is in the session set. *)
Definition session_covers_queue (c : Crawler) : Prop :=
  ∀ u, u ∈ queue c → u ∈ urls_in_session c.

(** ** funcs.py: the text of a page *)

(** [c] ends a line for [str.splitlines], for code points below 256. *)
Definition is_line_boundary (c : ascii) : bool :=
  Str.between 10 13 c || Str.between 28 30 c || (Str.code c =? 133)%N.

(** The pieces between line boundaries, a last empty piece included;
    ["\r\n"] is one boundary. *)
Fixpoint line_pieces (s : string) : list string :=
  match s with
  | "" => [""]
  | String c s' =>
      if is_line_boundary c then
        "" :: match s' with
              | String "010" s'' =>
                  if Ascii.eqb c "013" then line_pieces s'' else line_pieces s'
              | _ => line_pieces s'
              end
      else match line_pieces s' with
           | h :: t => String c h :: t
           | [] => [String c ""]
           end
  end.

(** [l[:-1]] when the last element of [l] is empty. *)
Fixpoint drop_last_empty (l : list string) : list string :=
  match l with
  | [] => []
  | [""] => []
  | x :: l' => x :: drop_last_empty l'
  end.

(** [s.splitlines()] *)
Definition splitlines (s : string) : list string :=
  drop_last_empty (line_pieces s).

(** [s.split("  ")] *)
Fixpoint split_double_space (s : string) : list string :=
  match s with
  | "" => [""]
  | String c s' =>
      match s' with
      | String d s'' =>
          if Ascii.eqb c " " && Ascii.eqb d " " then "" :: split_double_space s''
          else match split_double_space s' with
               | h :: t => String c h :: t
               | [] => [String c ""]
               end
      | "" => [String c ""]
      end
  end.

(** [extract_html_text], from the text that [soup.get_text()] gives once the
    [script] and [style] elements are taken out. *)
Definition extract_html_text (text : string) : string :=
  let lines := List.map Str.strip (splitlines text) in
  let chunks :=
    List.concat
      (List.map (fun line => List.map Str.strip (split_double_space line))
         lines) in
  Str.join (String "010" "")
    (List.filter (fun chunk => negb (Str.is_empty chunk)) chunks).

(** ** Vocabulary of the further properties *)

(** [u] is what the anchor [href] of a page contributes to
    [extract_valid_urls]. *)
Definition link_of (base_url required_host_substring href u : string) : Prop :=
  href ≠ "" ∧ skipped_prefix href = false
  ∧ normalize_and_clean_url href base_url = Some u
  ∧ is_url_valid_for_host u required_host_substring = true.

(** A queue entry without line terminator. *)
Definition one_line (url : string) : Prop :=
  Str.has "010" url = false ∧ Str.has "013" url = false.

(** A seed that [_initialize_queue] lets through. *)
Definition seed_passes (fs : FS) (host url : string) : Prop :=
  is_url_valid_for_host url host = true ∧ url_exists_in_index url fs = false.

(** A line of cleaned text: not empty, no whitespace at either end, no
    line boundary and no two spaces in a row. *)
Definition clean_chunk (chunk : string) : Prop :=
  chunk ≠ "" ∧ Str.strip chunk = chunk
  ∧ Str.existsb is_line_boundary chunk = false
  ∧ Str.contains "  " chunk = false.

(** The separator that [extract_html_text] joins its lines with. *)
Definition LF : string := String "010" "".

(** * Properties *)

Ltac rsimpl := cbv beta iota delta [mbind result_bind mret result_ret].
Tactic Notation "rsimpl" "in" hyp(H) :=
  cbv beta iota delta [mbind result_bind mret result_ret] in H.

(** ** Strings *)

Section StringFacts.
Import Str.
Implicit Types (s t a b : string) (c : ascii) (p : ascii → bool).

Lemma str_app_cons c s t : String c s +:+ t = String c (s +:+ t).
Proof. reflexivity. Qed.

Lemma str_app_nil_l s : "" +:+ s = s.
Proof. reflexivity. Qed.

Lemma str_app_nil_r s : s +:+ "" = s.
Proof. induction s as [|c s IH]; [done|]. by rewrite str_app_cons, IH. Qed.

Lemma str_app_assoc s t a : (s +:+ t) +:+ a = s +:+ t +:+ a.
Proof. induction s as [|c s IH]; [done|]. by rewrite !str_app_cons, IH. Qed.

Lemma str_length_app s t :
  String.length (s +:+ t) = (String.length s + String.length t)%nat.
Proof. induction s as [|c s IH]; [done|]. rewrite str_app_cons; simpl. by rewrite IH. Qed.

Lemma str_app_eq_nil s t : s +:+ t = "" → s = "" ∧ t = "".
Proof. destruct s; [done|]. by rewrite str_app_cons. Qed.

Lemma existsb_app p s t : existsb p (s +:+ t) = existsb p s || existsb p t.
Proof.
  induction s as [|c s IH]; [done|].
  rewrite str_app_cons; simpl. by rewrite IH, orb_assoc.
Qed.

Lemma has_app c s t : has c (s +:+ t) = has c s || has c t.
Proof. apply existsb_app. Qed.

Lemma existsb_app_false p s t :
  existsb p (s +:+ t) = false → existsb p s = false ∧ existsb p t = false.
Proof. rewrite existsb_app. apply orb_false_elim. Qed.

Lemma has_app_false c s t :
  has c (s +:+ t) = false → has c s = false ∧ has c t = false.
Proof. apply existsb_app_false. Qed.

(** *** [break], [partition], [rpartition] *)

Lemma break_app p s :
  fst (break p s) +:+ snd (break p s) = s.
Proof.
  induction s as [|c s IH]; [done|]. simpl.
  destruct (p c); [done|].
  destruct (break p s) as [a b]. simpl in *. by rewrite str_app_cons, IH.
Qed.

Lemma break_fst p s : existsb p (fst (break p s)) = false.
Proof.
  induction s as [|c s IH]; [done|]. simpl.
  destruct (p c) eqn:E; [done|].
  destruct (break p s) as [a b]. simpl in *. by rewrite E.
Qed.

Lemma break_snd p s :
  match snd (break p s) with "" => True | String c _ => p c = true end.
Proof.
  induction s as [|c s IH]; [done|]. simpl.
  destruct (p c) eqn:E; [done|].
  by destruct (break p s) as [a b].
Qed.

Lemma break_none p s : existsb p s = false → break p s = (s, "").
Proof.
  induction s as [|c s IH]; [done|]. simpl.
  intros [-> H]%orb_false_elim. by rewrite (IH H).
Qed.

Lemma break_hit p a b :
  existsb p a = false →
  match b with "" => True | String c _ => p c = true end →
  break p (a +:+ b) = (a, b).
Proof.
  induction a as [|c a IH]; intros Ha Hb.
  - rewrite str_app_nil_l. destruct b as [|c b]; [done|]. simpl. by rewrite Hb.
  - simpl in Ha. apply orb_false_elim in Ha as [Hc Ha].
    rewrite str_app_cons. simpl. rewrite Hc. by rewrite (IH Ha Hb).
Qed.

Lemma partition_found c a b :
  has c a = false → partition c (a +:+ String c b) = (a, true, b).
Proof.
  intros Ha. unfold partition. rewrite break_hit; [done|done|].
  by rewrite Ascii.eqb_refl.
Qed.

Lemma partition_none c s : has c s = false → partition c s = (s, false, "").
Proof. intros H. unfold partition. by rewrite break_none. Qed.

Lemma partition_spec c s :
  match partition c s with
  | (a, true, b) => s = a +:+ String c b ∧ has c a = false
  | (a, false, b) => a = s ∧ b = "" ∧ has c s = false
  end.
Proof.
  unfold partition.
  pose proof (break_app (Ascii.eqb c) s) as Happ.
  pose proof (break_fst (Ascii.eqb c) s) as Hfst.
  pose proof (break_snd (Ascii.eqb c) s) as Hsnd.
  destruct (break (Ascii.eqb c) s) as [a [|d b]]; simpl in *.
  - rewrite str_app_nil_r in Happ. subst a. done.
  - apply Ascii.eqb_eq in Hsnd as <-. done.
Qed.

Lemma has_true_split c s :
  has c s = true → ∃ a b, s = a +:+ String c b ∧ has c a = false.
Proof.
  intros H. pose proof (partition_spec c s) as Hp.
  destruct (partition c s) as [[a [|]] b]; [by eauto|].
  destruct Hp as (_ & _ & Hp). congruence.
Qed.

Lemma rpartition_none c s : has c s = false → rpartition c s = ("", false, s).
Proof.
  induction s as [|d s IH]; [done|]. simpl.
  intros [Hd H]%orb_false_elim. rewrite (IH H).
  rewrite (Ascii.eqb_sym d c). by rewrite Hd.
Qed.

Lemma rpartition_spec c s :
  match rpartition c s with
  | (a, true, b) => s = a +:+ String c b ∧ has c b = false
  | (a, false, b) => a = "" ∧ b = s ∧ has c s = false
  end.
Proof.
  induction s as [|d s IH]; [done|]. simpl.
  destruct (rpartition c s) as [[a [|]] b].
  - destruct IH as [-> Hb]. by rewrite str_app_cons.
  - destruct IH as (-> & -> & Hs).
    destruct (Ascii.eqb d c) eqn:E.
    + apply Ascii.eqb_eq in E as ->. done.
    + rewrite Ascii.eqb_sym in E. unfold has in *. simpl. by rewrite E, Hs.
Qed.

Lemma rpartition_app c a b :
  has c b = true →
  rpartition c (a +:+ b) =
    (a +:+ fst (fst (rpartition c b)), true, snd (rpartition c b)).
Proof.
  intros Hb. induction a as [|d a IH].
  - rewrite !str_app_nil_l.
    pose proof (rpartition_spec c b) as H.
    destruct (rpartition c b) as [[x [|]] y]; [done|].
    destruct H as (_ & _ & H). congruence.
  - rewrite str_app_cons. simpl. by rewrite IH.
Qed.

(** *** [rstrip], [lstrip], [remove] *)

Lemma rstrip_p_idem p s : rstrip_p p (rstrip_p p s) = rstrip_p p s.
Proof.
  induction s as [|c s IH]; [done|]. simpl.
  destruct (rstrip_p p s) as [|d r] eqn:E.
  - destruct (p c) eqn:Ec; [done|]. simpl. by rewrite Ec.
  - simpl. simpl in IH. by rewrite IH.
Qed.

Lemma rstrip_p_app_fixed p a b :
  rstrip_p p a = a → rstrip_p p (a +:+ b) = a +:+ rstrip_p p b.
Proof.
  induction a as [|c a IH]; [done|]. simpl. intros H.
  rewrite str_app_cons. simpl.
  destruct (rstrip_p p a) as [|d r] eqn:E.
  - destruct (p c) eqn:Ec; [done|]. simplify_eq.
    rewrite !str_app_nil_l. by destruct (rstrip_p p b).
  - simplify_eq. rewrite IH by done. by rewrite str_app_cons.
Qed.

Lemma rstrip_p_fixed_nohit p s :
  s ≠ "" → existsb p s = false → rstrip_p p s = s.
Proof.
  induction s as [|c s IH]; [done|]. intros _. simpl.
  intros [Hc Hs]%orb_false_elim. destruct s as [|d s].
  - simpl. by rewrite Hc.
  - rewrite IH by done. done.
Qed.

Lemma rstrip_p_app_nohit p a s :
  s ≠ "" → existsb p s = false → rstrip_p p (a +:+ s) = a +:+ s.
Proof.
  intros Hs Hp. induction a as [|c a IH].
  - by apply rstrip_p_fixed_nohit.
  - rewrite str_app_cons. simpl. rewrite IH.
    destruct (a +:+ s) eqn:E; [|done]. by apply str_app_eq_nil in E as [_ ?].
Qed.

Lemma existsb_weaken p q s :
  (∀ c, q c = true → p c = true) →
  existsb p s = false → existsb q s = false.
Proof.
  intros Hpq. induction s as [|c s IH]; [done|]. simpl.
  intros [Hc Hs]%orb_false_elim. rewrite (IH Hs), orb_false_r.
  destruct (q c) eqn:E; [|done]. by rewrite (Hpq c E) in Hc.
Qed.

Lemma rstrip_p_prefix p s : ∃ r, s = rstrip_p p s +:+ r ∧ forallb p r = true.
Proof.
  induction s as [|c s (r & IH & Hr)]; [by exists ""|]. simpl.
  destruct (rstrip_p p s) as [|d t] eqn:E.
  - destruct (p c) eqn:Ec.
    + exists (String c s). split; [done|]. simpl. rewrite Ec.
      rewrite str_app_nil_l in IH. by subst r.
    + exists r. by rewrite str_app_cons, <- IH.
  - exists r. by rewrite str_app_cons, <- IH.
Qed.

Lemma lstrip_p_nohit p c s : p c = false → lstrip_p p (String c s) = String c s.
Proof. simpl. by intros ->. Qed.

Lemma remove_p_none p s : existsb p s = false → remove_p p s = s.
Proof.
  induction s as [|c s IH]; [done|]. simpl.
  intros [-> H]%orb_false_elim. by rewrite IH.
Qed.

Lemma remove_p_clean p s : existsb p (remove_p p s) = false.
Proof.
  induction s as [|c s IH]; [done|]. simpl.
  destruct (p c) eqn:E; [done|]. simpl. by rewrite E.
Qed.

Lemma endswith_char_app c a b :
  b ≠ "" → endswith_char c (a +:+ b) = endswith_char c b.
Proof.
  intros Hb. induction a as [|d a IH]; [done|].
  rewrite str_app_cons. simpl. destruct (a +:+ b) eqn:E; [|done].
  by apply str_app_eq_nil in E as [_ ?].
Qed.

Lemma startswith_app_nonempty c a b :
  a ≠ "" → startswith (String c "") (a +:+ b) = startswith (String c "") a.
Proof. destruct a as [|d a]; [done|]. intros _. rewrite str_app_cons. simpl. by rewrite !andb_true_r. Qed.

Lemma is_empty_true s : is_empty s = true ↔ s = "".
Proof. by destruct s. Qed.

Lemma is_empty_false s : is_empty s = false ↔ s ≠ "".
Proof. by destruct s. Qed.

Lemma member_In x l : member x l = true ↔ In x l.
Proof.
  unfold member. rewrite List.existsb_exists. split.
  - intros (y & Hy & E). by apply String.eqb_eq in E as ->.
  - intros H. exists x. by rewrite String.eqb_refl.
Qed.
End StringFacts.

(** ** [urllib.parse] *)

Section UrllibFacts.
Import Str Urllib.
Implicit Types (s t a b url : string) (c : ascii) (p : ascii → bool).

Lemma has_cons c d s : has c (String d s) = Ascii.eqb c d || has c s.
Proof. reflexivity. Qed.

Lemma among_delims c :
  among "/?#" c = Ascii.eqb c "/" || Ascii.eqb c "?" || Ascii.eqb c "#".
Proof. unfold among, has. cbn [existsb]. by rewrite orb_false_r, !orb_assoc. Qed.

Lemma existsb_drop p n s : existsb p s = false → existsb p (drop n s) = false.
Proof.
  revert s. induction n as [|n IH]; intros [|c s]; simpl; try done.
  intros [_ H]%orb_false_elim. by apply IH.
Qed.

Lemma drop_last_prefix s : ∃ r, s = drop_last s +:+ r.
Proof.
  induction s as [|c s [r IH]]; [by exists ""|]. simpl.
  destruct s as [|d s]; [by exists (String c "")|].
  exists r. by rewrite str_app_cons, <- IH.
Qed.

Lemma split_once_none c url : has c url = false → split_once c url = (url, "").
Proof. unfold split_once. by intros ->. Qed.

Lemma split_once_spec c url :
  has c (fst (split_once c url)) = false
  ∧ ∃ r, url = fst (split_once c url) +:+ r.
Proof.
  unfold split_once. destruct (has c url) eqn:E.
  - pose proof (partition_spec c url) as H.
    destruct (partition c url) as [[a [|]] b]; simpl.
    + destruct H as [-> H]. eauto.
    + destruct H as (_ & _ & H). congruence.
  - simpl. split; [done|]. exists "". by rewrite str_app_nil_r.
Qed.

Lemma splitparams_prefix url : ∃ r, url = fst (_splitparams url) +:+ r.
Proof.
  unfold _splitparams. destruct (has "/" url) eqn:E.
  - pose proof (rpartition_spec "/" url) as H.
    destruct (rpartition "/" url) as [[dir fl] seg].
    pose proof (partition_spec ";" seg) as H'.
    destruct (partition ";" seg) as [[x [|]] y]; simpl.
    + destruct fl.
      * destruct H as [-> _], H' as [-> _].
        exists (String ";" y). by rewrite !str_app_assoc.
      * destruct H as (_ & _ & H). congruence.
    + exists "". by rewrite str_app_nil_r.
  - pose proof (partition_spec ";" url) as H'.
    destruct (partition ";" url) as [[x [|]] y]; simpl.
    + destruct H' as [-> _]. eauto.
    + apply drop_last_prefix.
Qed.

Lemma parts_ok_prefix nl pa r : parts_ok nl (pa +:+ r) → parts_ok nl pa.
Proof.
  intros [H1 H2 H3 H4 H5 H6 H7]. split; try done.
  - by apply existsb_app_false in H2 as [? _].
  - by apply has_app_false in H3 as [? _].
  - by apply has_app_false in H4 as [? _].
  - intros Hnl. destruct pa as [|c pa]; [by left|right].
    destruct (H7 Hnl) as [E|E]; [done|]. by rewrite str_app_cons in E.
Qed.

Lemma split_scheme_unsafe url s0 :
  existsb unsafe_url_byte url = false →
  existsb unsafe_url_byte (snd (split_scheme url s0)) = false.
Proof.
  intros H. unfold split_scheme.
  pose proof (partition_spec ":" url) as Hp.
  destruct (partition ":" url) as [[[|c0 pre] [|]] post]; try done.
  destruct (_ && _); [|done]. simpl.
  destruct Hp as [-> _]. apply existsb_app_false in H as [_ H].
  by simpl in H.
Qed.

Lemma urlsplit_tail (sch' nl0 rest sch nl pa q f : string) :
  (let '(url, fragment) := split_once "#" rest in
   let '(url0, query) := split_once "?" url in
   _ ← _checknetloc nl0; Ok (sch', nl0, url0, query, fragment))
  = Ok (sch, nl, pa, q, f) →
  nl = nl0 ∧ sch = sch' ∧ has "?" pa = false ∧ has "#" pa = false
  ∧ ∃ r, rest = pa +:+ r.
Proof.
  destruct (split_once_spec "#" rest) as [H1 [r1 H2]].
  destruct (split_once "#" rest) as [u fr]. simpl in *.
  destruct (split_once_spec "?" u) as [H3 [r2 H4]].
  destruct (split_once "?" u) as [u0 qq]. simpl in *.
  intros [= <- <- <- <- <-]. repeat split; try done.
  - rewrite H4 in H1. by apply has_app_false in H1 as [? _].
  - exists (r2 +:+ r1). by rewrite <- str_app_assoc, <- H4.
Qed.

Lemma urlsplit_parts url s0 sch nl pa q f :
  urlsplit url s0 = Ok (sch, nl, pa, q, f) → parts_ok nl pa.
Proof.
  unfold urlsplit.
  set (u1 := remove_p unsafe_url_byte (lstrip_p c0_control_or_space url)).
  set (s1 := remove_p unsafe_url_byte (strip_p c0_control_or_space s0)).
  pose proof (split_scheme_unsafe u1 s1 (remove_p_clean _ _)) as Hu2.
  destruct (split_scheme u1 s1) as [sch' u2]. simpl in Hu2.
  destruct (startswith "//" u2) eqn:Hss.
  - unfold _splitnetloc.
    pose proof (existsb_drop _ 2 _ Hu2) as Hdrop.
    generalize dependent (drop 2 u2). intros d Hdrop.
    pose proof (break_app (among "/?#") d) as Happ.
    pose proof (break_fst (among "/?#") d) as Hfst.
    pose proof (break_snd (among "/?#") d) as Hsnd.
    destruct (break (among "/?#") d) as [nl0 rest].
    simpl in Happ, Hfst, Hsnd. rewrite <- Happ in Hdrop.
    apply existsb_app_false in Hdrop as [Hn Hr].
    destruct (check_brackets nl0) as [[]|e] eqn:Hcb; [|done].
    intros (-> & -> & Hq & Hf & r & ->)%urlsplit_tail.
    apply existsb_app_false in Hr as [Hr _].
    split; try done.
    intros _. destruct pa as [|c pa]; [by left|right].
    rewrite str_app_cons in Hsnd. change (among "/?#" c = true) in Hsnd.
    rewrite has_cons in Hq, Hf.
    apply orb_false_elim in Hq as [Hq _], Hf as [Hf _].
    rewrite among_delims, (Ascii.eqb_sym c "?"), Hq,
      (Ascii.eqb_sym c "#"), Hf, !orb_false_r in Hsnd.
    cbn [startswith]. by rewrite (Ascii.eqb_sym "/" c), Hsnd.
  - intros (-> & -> & Hq & Hf & r & ->)%urlsplit_tail.
    apply existsb_app_false in Hu2 as [Hr _].
    by split.
Qed.

Lemma urlparse_parts url s0 pr :
  urlparse url s0 = Ok pr → parts_ok (netloc pr) (path pr).
Proof.
  unfold urlparse.
  destruct (urlsplit url s0) as [[[[[sch nl] pa] q] f]|e] eqn:E; [|done].
  apply urlsplit_parts in E. rsimpl.
  destruct (splitparams_prefix pa) as [r Hr].
  destruct (member sch uses_params && has ";" pa).
  - destruct (_splitparams pa) as [pa' prm]. simpl in *.
    intros [= <-]. simpl. rewrite Hr in E. by eapply parts_ok_prefix.
  - by intros [= <-].
Qed.

Lemma urlunparse_clean sch nl pa :
  sch ≠ "" → nl ≠ "" → pa = "" ∨ startswith "/" pa = true →
  urlunparse (mkParseResult sch nl pa "" "" "")
  = sch +:+ "://" +:+ nl +:+ pa.
Proof.
  intros Hs Hn Hp. unfold urlunparse, urlunsplit.
  cbn [scheme netloc path params query fragment].
  apply is_empty_false in Hs, Hn. rewrite Hs, Hn.
  change (is_empty "") with true. cbn [negb orb].
  destruct Hp as [->|Hp]; [done|]. by rewrite Hp, andb_false_r.
Qed.
End UrllibFacts.

(** ** The normalizer *)

Section NormalizeFacts.
Import Str Urllib.

Lemma delims_slash nl :
  existsb (among "/?#") nl = false → has "/" nl = false.
Proof.
  apply existsb_weaken. intros c Hc. rewrite among_delims.
  by rewrite (Ascii.eqb_sym c "/"), Hc.
Qed.

Lemma delims_query nl :
  existsb (among "/?#") nl = false → has "?" nl = false.
Proof.
  apply existsb_weaken. intros c Hc. rewrite among_delims.
  by rewrite (Ascii.eqb_sym c "?"), Hc, orb_true_r.
Qed.

Lemma delims_fragment nl :
  existsb (among "/?#") nl = false → has "#" nl = false.
Proof.
  apply existsb_weaken. intros c Hc. rewrite among_delims.
  by rewrite (Ascii.eqb_sym c "#"), Hc, orb_true_r.
Qed.

Lemma clean_then_strip sch nl pa :
  nl ≠ "" → has "/" nl = false →
  let clean_url := sch +:+ "://" +:+ nl +:+ pa in
  (if (String.length (sch +:+ "://" +:+ nl) + 1 <? String.length clean_url)%nat
      && endswith_char "/" clean_url
   then rstrip_p (Ascii.eqb "/") clean_url else clean_url)
  = sch +:+ "://" +:+ nl +:+ final_path pa.
Proof.
  intros Hnl Hs. cbv zeta. unfold final_path.
  assert (∀ x, sch +:+ "://" +:+ nl +:+ x = (sch +:+ "://" +:+ nl) +:+ x)
    as Hassoc by (intros x; by rewrite !str_app_assoc).
  rewrite !Hassoc. set (A := sch +:+ "://" +:+ nl).
  destruct pa as [|c pa].
  - rewrite str_app_nil_r. cbn [String.length].
    replace (String.length A + 1 <? String.length A)%nat with false;
      [by rewrite str_app_nil_r|].
    symmetry. apply Nat.ltb_ge. lia.
  - rewrite str_length_app, endswith_char_app by done.
    replace (String.length A + 1 <? String.length A + String.length (String c pa))%nat
      with (1 <? String.length (String c pa))%nat.
    2:{ destruct (Nat.ltb_spec 1 (String.length (String c pa)));
        symmetry; [apply Nat.ltb_lt|apply Nat.ltb_ge]; lia. }
    destruct (_ && _); [|done].
    apply rstrip_p_app_fixed. subst A. rewrite <- str_app_assoc.
    by apply rstrip_p_app_nohit.
Qed.

Lemma normalize_inv href base v :
  normalize_and_clean_url href base = Some v →
  ∃ abs pr,
    urljoin base (strip href) = Ok abs
    ∧ urlparse abs "" = Ok pr
    ∧ member (scheme pr) ["http"; "https"] = true
    ∧ netloc pr ≠ ""
    ∧ v = scheme pr +:+ "://" +:+ netloc pr +:+ final_path (path pr).
Proof.
  unfold normalize_and_clean_url.
  destruct (urljoin base (strip href)) as [abs|e] eqn:Ej; [|done]. rsimpl.
  destruct (urlparse abs "") as [pr|e] eqn:Ep; [|done]. rsimpl.
  destruct (member (scheme pr) ["http"; "https"]) eqn:Em; [|done].
  destruct (is_empty (netloc pr)) eqn:En; [done|].
  cbn [negb orb]. intros [= <-].
  apply is_empty_false in En.
  pose proof (urlparse_parts _ _ _ Ep) as Hok.
  exists abs, pr. repeat split; try done.
  assert (scheme pr ≠ "") as Hsch by (by intros E; rewrite E in Em).
  rewrite urlunparse_clean by (try done; by apply Hok).
  apply clean_then_strip; [done|].
  apply delims_slash, Hok.
Qed.
End NormalizeFacts.

(** ** Normalized URLs parse back to their parts *)

Section Canonical.
Import Str Urllib.

Lemma http_or_https sch :
  member sch ["http"; "https"] = true → sch = "http" ∨ sch = "https".
Proof.
  intros H%member_In. destruct H as [<-|[<-|[]]]; auto.
Qed.

Lemma rooted_break nl pa :
  existsb (among "/?#") nl = false →
  pa = "" ∨ startswith "/" pa = true →
  break (among "/?#") (nl +:+ pa) = (nl, pa).
Proof.
  intros Hnl Hpa. apply break_hit; [done|].
  destruct Hpa as [->|Hpa]; [done|]. destruct pa as [|c pa]; [done|].
  cbn [startswith] in Hpa. apply andb_true_iff in Hpa as [Hc _].
  apply Ascii.eqb_eq in Hc as <-. done.
Qed.

Lemma urlsplit_canonical sch nl pa s0 :
  member sch ["http"; "https"] = true → nl ≠ "" → parts_ok nl pa →
  urlsplit (sch +:+ "://" +:+ nl +:+ pa) s0 = Ok (sch, nl, pa, "", "").
Proof.
  intros Hsch Hnl Hok. unfold urlsplit.
  assert (existsb unsafe_url_byte (nl +:+ pa) = false) as Hun.
  { rewrite existsb_app. by rewrite (nl_unsafe _ _ Hok), (pa_unsafe _ _ Hok). }
  assert (split_scheme (sch +:+ "://" +:+ nl +:+ pa)
            (remove_p unsafe_url_byte (strip_p c0_control_or_space s0))
          = (sch, "//" +:+ nl +:+ pa)
          ∧ remove_p unsafe_url_byte
              (lstrip_p c0_control_or_space (sch +:+ "://" +:+ nl +:+ pa))
            = sch +:+ "://" +:+ nl +:+ pa) as [Hsplit Hclean].
  { destruct (http_or_https _ Hsch) as [-> | ->].
    - split.
      + unfold split_scheme.
        change ("http" +:+ "://" +:+ nl +:+ pa)
          with ("http" +:+ String ":" ("//" +:+ nl +:+ pa)).
        by rewrite partition_found.
      + change ("http" +:+ "://" +:+ nl +:+ pa)
          with (String "h" ("ttp://" +:+ nl +:+ pa)).
        rewrite lstrip_p_nohit by done. apply remove_p_none.
        change (String "h" ("ttp://" +:+ nl +:+ pa))
          with ("http://" +:+ nl +:+ pa).
        by rewrite existsb_app, Hun.
    - split.
      + unfold split_scheme.
        change ("https" +:+ "://" +:+ nl +:+ pa)
          with ("https" +:+ String ":" ("//" +:+ nl +:+ pa)).
        by rewrite partition_found.
      + change ("https" +:+ "://" +:+ nl +:+ pa)
          with (String "h" ("ttps://" +:+ nl +:+ pa)).
        rewrite lstrip_p_nohit by done. apply remove_p_none.
        change (String "h" ("ttps://" +:+ nl +:+ pa))
          with ("https://" +:+ nl +:+ pa).
        by rewrite existsb_app, Hun. }
  rewrite Hclean, Hsplit.
  change (startswith "//" ("//" +:+ nl +:+ pa)) with true. cbv iota.
  unfold _splitnetloc. change (drop 2 ("//" +:+ nl +:+ pa)) with (nl +:+ pa).
  rewrite rooted_break by (try apply Hok; done).
  rewrite (nl_brackets _ _ Hok Hnl). rsimpl.
  rewrite (split_once_none "#") by apply Hok.
  rewrite (split_once_none "?") by apply Hok.
  done.
Qed.

Lemma splitparams_none pa :
  has ";" (snd (rpartition "/" pa)) = false →
  (if member "http" uses_params && has ";" pa then _splitparams pa
   else (pa, "")) = (pa, "").
Proof.
  intros H. destruct (_ && _) eqn:E; [|done].
  apply andb_true_iff in E as [_ E]. unfold _splitparams.
  pose proof (rpartition_spec "/" pa) as Hr.
  destruct (has "/" pa) eqn:Hs.
  - destruct (rpartition "/" pa) as [[dir fl] seg]. simpl in H.
    by rewrite (partition_none _ _ H).
  - destruct (rpartition "/" pa) as [[dir [|]] seg]; simpl in H.
    + destruct Hr as [-> _]. rewrite has_app, has_cons in Hs.
      by rewrite Ascii.eqb_refl, orb_true_r in Hs.
    + destruct Hr as (_ & -> & _). congruence.
Qed.

Lemma urlparse_canonical sch nl pa s0 :
  member sch ["http"; "https"] = true → nl ≠ "" → parts_ok nl pa →
  has ";" (snd (rpartition "/" pa)) = false →
  urlparse (sch +:+ "://" +:+ nl +:+ pa) s0
  = Ok (mkParseResult sch nl pa "" "" "").
Proof.
  intros Hsch Hnl Hok Hsemi. unfold urlparse.
  rewrite urlsplit_canonical by done. rsimpl.
  assert (member sch uses_params = member "http" uses_params) as ->.
  { by destruct (http_or_https _ Hsch) as [-> | ->]. }
  by rewrite splitparams_none.
Qed.

Lemma last_segment_app nl pa a :
  nl ≠ "" → has "/" nl = false → pa = "" ∨ startswith "/" pa = true →
  has ";" (snd (rpartition "/" (a +:+ "/" +:+ nl +:+ pa))) = false →
  has ";" (snd (rpartition "/" pa)) = false.
Proof.
  intros Hnl Hs [->|Hpa] H; [done|].
  assert (has "/" pa = true) as Hhas.
  { destruct pa as [|c pa]; [done|]. cbn [startswith] in Hpa.
    apply andb_true_iff in Hpa as [Hc _]. by rewrite has_cons, Hc. }
  assert (a +:+ "/" +:+ nl +:+ pa = (a +:+ "/" +:+ nl) +:+ pa) as E
    by (by rewrite !str_app_assoc).
  rewrite E, rpartition_app in H by done. done.
Qed.

Lemma final_path_idem pa : final_path (final_path pa) = final_path pa.
Proof.
  unfold final_path.
  destruct ((1 <? String.length pa)%nat && endswith_char "/" pa) eqn:E.
  - clear E. destruct (_ && _); [|done]. apply rstrip_p_idem.
  - by rewrite E.
Qed.

Lemma final_path_prefix pa : ∃ r, pa = final_path pa +:+ r.
Proof.
  unfold final_path. destruct (_ && _).
  - destruct (rstrip_p_prefix (Ascii.eqb "/") pa) as (r & H & _). eauto.
  - exists "". by rewrite str_app_nil_r.
Qed.

Lemma urljoin_canonical sch nl pa :
  member sch ["http"; "https"] = true → nl ≠ "" → parts_ok nl pa →
  has ";" (snd (rpartition "/" pa)) = false →
  let v := sch +:+ "://" +:+ nl +:+ pa in
  urljoin v v = Ok v.
Proof.
  intros Hsch Hnl Hok Hsemi v. unfold urljoin.
  assert (is_empty v = false) as ->.
  { apply is_empty_false. subst v.
    by destruct (http_or_https _ Hsch) as [-> | ->]. }
  subst v. rewrite urlparse_canonical by done. rsimpl.
  rewrite urlparse_canonical by done. rsimpl.
  cbn [scheme netloc]. rewrite String.eqb_refl. cbn [negb orb].
  assert (member sch uses_relative = true ∧ member sch uses_netloc = true)
    as [-> ->] by (by destruct (http_or_https _ Hsch) as [-> | ->]).
  apply is_empty_false in Hnl as Hnl'. rewrite Hnl'. cbn [negb orb andb].
  rewrite urlunparse_clean; [done| |done|by apply Hok].
  by destruct (http_or_https _ Hsch) as [-> | ->].
Qed.

Lemma normalize_canonical sch nl pa :
  member sch ["http"; "https"] = true → nl ≠ "" → parts_ok nl pa →
  has ";" (snd (rpartition "/" pa)) = false →
  let v := sch +:+ "://" +:+ nl +:+ pa in
  strip v = v →
  normalize_and_clean_url v v = Some (sch +:+ "://" +:+ nl +:+ final_path pa).
Proof.
  intros Hsch Hnl Hok Hsemi v Hstrip. unfold normalize_and_clean_url.
  rewrite Hstrip. subst v. rewrite urljoin_canonical by done. rsimpl.
  rewrite urlparse_canonical by done. rsimpl. cbn [scheme netloc path].
  rewrite Hsch. apply is_empty_false in Hnl as Hnl'. rewrite Hnl'.
  cbn [negb orb]. f_equal.
  rewrite urlunparse_clean; [| |done|by apply Hok].
  - apply clean_then_strip; [done|]. apply delims_slash, Hok.
  - by destruct (http_or_https _ Hsch) as [-> | ->].
Qed.
End Canonical.

Section Normalizer.
Import Str Urllib.

Lemma endswith_rstrip c s : endswith_char c (rstrip_p (Ascii.eqb c) s) = false.
Proof.
  induction s as [|a s IH]; [done|]. simpl.
  destruct (rstrip_p (Ascii.eqb c) s) as [|d t] eqn:E.
  - destruct (Ascii.eqb c a) eqn:Ea; [done|]. simpl.
    by rewrite Ascii.eqb_sym.
  - done.
Qed.

Lemma urljoin_absolute base sch nl pa :
  member sch ["http"; "https"] = true → nl ≠ "" → parts_ok nl pa →
  has ";" (snd (rpartition "/" pa)) = false →
  is_empty base = true ∨ (∃ b, urlparse base "" = Ok b) →
  urljoin base (sch +:+ "://" +:+ nl +:+ pa)
  = Ok (sch +:+ "://" +:+ nl +:+ pa).
Proof.
  intros Hsch Hnl Hok Hsemi Hbase. unfold urljoin.
  destruct (is_empty base) eqn:Eb; [done|].
  destruct Hbase as [?|[b Hb]]; [done|].
  assert (is_empty (sch +:+ "://" +:+ nl +:+ pa) = false) as ->.
  { apply is_empty_false. by destruct (http_or_https _ Hsch) as [-> | ->]. }
  rewrite Hb. rsimpl. rewrite urlparse_canonical by done. rsimpl.
  cbn [scheme netloc]. destruct (_ || _); [done|].
  assert (member sch uses_netloc = true) as ->
    by (by destruct (http_or_https _ Hsch) as [-> | ->]).
  apply is_empty_false in Hnl as Hnl'. rewrite Hnl'. cbn [negb andb].
  rewrite urlunparse_clean; [done| |done|by apply Hok].
  by destruct (http_or_https _ Hsch) as [-> | ->].
Qed.

Lemma normalize_of_join href base sch nl pa :
  member sch ["http"; "https"] = true → nl ≠ "" → parts_ok nl pa →
  has ";" (snd (rpartition "/" pa)) = false →
  urljoin base (strip href) = Ok (sch +:+ "://" +:+ nl +:+ pa) →
  normalize_and_clean_url href base
  = Some (sch +:+ "://" +:+ nl +:+ final_path pa).
Proof.
  intros Hsch Hnl Hok Hsemi Hjoin. unfold normalize_and_clean_url.
  rewrite Hjoin. rsimpl.
  rewrite urlparse_canonical by done. rsimpl. cbn [scheme netloc path].
  rewrite Hsch. apply is_empty_false in Hnl as Hnl'. rewrite Hnl'.
  cbn [negb orb]. f_equal.
  rewrite urlunparse_clean; [| |done|by apply Hok].
  - apply clean_then_strip; [done|]. apply delims_slash, Hok.
  - by destruct (http_or_https _ Hsch) as [-> | ->].
Qed.
End Normalizer.

(** C2 (as amended).  When normalization succeeds, the result is the scheme,
    ["://"], the netloc and the path of the resolved URL, without params,
    query or fragment; when that path is longer than one character and ends
    in a slash, all of its trailing slashes are removed, so the result
    contains no ['?'] and no ['#'] and, for such a path, does not end in a
    slash. *)
Theorem normalizer_strips_all_trailing_slashes (href base v : string) :
  normalize_and_clean_url href base = Some v →
  ∃ absolute_url url_parts,
    Urllib.urljoin base (Str.strip href) = Ok absolute_url
    ∧ Urllib.urlparse absolute_url "" = Ok url_parts
    ∧ v = Urllib.scheme url_parts +:+ "://" +:+ Urllib.netloc url_parts
            +:+ final_path (Urllib.path url_parts)
    ∧ Str.has "?" v = false
    ∧ Str.has "#" v = false
    ∧ ((1 < String.length (Urllib.path url_parts))%nat →
       Str.endswith_char "/" v = false).
Proof.
  intros H.
  destruct (normalize_inv _ _ _ H) as (abs & pr & Hj & Hp & Hs & Hn & ->).
  exists abs, pr. split; [done|]. split; [done|]. split; [done|].
  pose proof (urlparse_parts _ _ _ Hp) as Hok.
  destruct (final_path_prefix (Urllib.path pr)) as [r Hr].
  assert (parts_ok (Urllib.netloc pr) (final_path (Urllib.path pr))) as Hok'.
  { apply parts_ok_prefix with r. by rewrite <- Hr. }
  split; [|split].
  - rewrite !has_app, (delims_query _ (nl_delims _ _ Hok)),
      (pa_query _ _ Hok').
    by destruct (http_or_https _ Hs) as [-> | ->].
  - rewrite !has_app, (delims_fragment _ (nl_delims _ _ Hok)),
      (pa_fragment _ _ Hok').
    by destruct (http_or_https _ Hs) as [-> | ->].
  - intros Hlen.
    assert (∀ x, Urllib.scheme pr +:+ "://" +:+ Urllib.netloc pr +:+ x
                 = (Urllib.scheme pr +:+ "://" +:+ Urllib.netloc pr) +:+ x)
      as Hassoc by (intros x; by rewrite !str_app_assoc).
    rewrite Hassoc. unfold final_path.
    apply Nat.ltb_lt in Hlen. rewrite Hlen. cbn [andb].
    destruct (Str.endswith_char "/" (Urllib.path pr)) eqn:E.
    + rewrite <- rstrip_p_app_fixed; [apply endswith_rstrip|].
      rewrite <- str_app_assoc. apply rstrip_p_app_nohit; [done|].
      apply delims_slash, Hok.
    + rewrite endswith_char_app; [done|].
      intros E'. rewrite E' in Hlen. done.
Qed.

Lemma normalizer_strips_all_trailing_slashes_witness :
  ∃ absolute_url url_parts,
    Urllib.urljoin "https://example.org/" (Str.strip "/a//?x=1#foo")
      = Ok absolute_url
    ∧ Urllib.urlparse absolute_url "" = Ok url_parts
    ∧ "https://example.org/a"
      = Urllib.scheme url_parts +:+ "://" +:+ Urllib.netloc url_parts
          +:+ final_path (Urllib.path url_parts)
    ∧ Str.has "?" "https://example.org/a" = false
    ∧ Str.has "#" "https://example.org/a" = false
    ∧ ((1 < String.length (Urllib.path url_parts))%nat →
       Str.endswith_char "/" "https://example.org/a" = false).
Proof.
  apply (normalizer_strips_all_trailing_slashes
           "/a//?x=1#foo" "https://example.org/" "https://example.org/a").
  vm_compute. reflexivity.
Defined.

(** C2 as stated fails: for a resolved URL ending in ["//"] the claim keeps
    one of the two slashes, the code removes both. *)
Lemma normalizer_strips_one_slash_counterexample :
  normalize_and_clean_url "https://example.org/a//" "https://example.org/"
  ≠ Some (strip_one_trailing_slash "https://example.org/a//")
  ∧ normalize_and_clean_url "https://example.org/a//" "https://example.org/"
    = Some "https://example.org/a".
Proof. split; [vm_compute; discriminate|vm_compute; reflexivity]. Qed.

(** C3.  The example of the specification, and rejection: a resolved URL
    whose scheme is neither http nor https, or whose host is empty, gives
    no URL, and so does a [ValueError] of [urljoin] or [urlparse]; the
    normalizer itself never raises. *)
Theorem normalize_resolves_and_rejects :
  normalize_and_clean_url "/about?x=1#foo" "https://example.org/"
  = Some "https://example.org/about"
  ∧ (∀ href base absolute_url url_parts,
       Urllib.urljoin base (Str.strip href) = Ok absolute_url →
       Urllib.urlparse absolute_url "" = Ok url_parts →
       Str.member (Urllib.scheme url_parts) ["http"; "https"] = false
       ∨ Urllib.netloc url_parts = "" →
       normalize_and_clean_url href base = None)
  ∧ (∀ href base e,
       Urllib.urljoin base (Str.strip href) = Raise e →
       normalize_and_clean_url href base = None)
  ∧ (∀ href base absolute_url e,
       Urllib.urljoin base (Str.strip href) = Ok absolute_url →
       Urllib.urlparse absolute_url "" = Raise e →
       normalize_and_clean_url href base = None).
Proof.
  split; [vm_compute; reflexivity|]. split; [|split].
  - intros href base abs pr Hj Hp Hrej. unfold normalize_and_clean_url.
    rewrite Hj. rsimpl. rewrite Hp. rsimpl.
    destruct Hrej as [-> | ->]; [done|]. by rewrite orb_true_r.
  - intros href base e Hj. unfold normalize_and_clean_url. by rewrite Hj.
  - intros href base abs e Hj Hp. unfold normalize_and_clean_url.
    rewrite Hj. rsimpl. by rewrite Hp.
Qed.

Lemma normalize_resolves_and_rejects_witness :
  normalize_and_clean_url "mailto:someone@example.org" "https://example.org/"
  = None
  ∧ normalize_and_clean_url "//[" "https://example.org/" = None.
Proof.
  destruct normalize_resolves_and_rejects as (_ & Hrej & Hraise & _). split.
  - apply (Hrej _ _ "mailto:someone@example.org"
             (Urllib.mkParseResult "mailto" "" "someone@example.org" "" "" ""));
      [vm_compute; reflexivity|vm_compute; reflexivity|left; reflexivity].
  - apply (Hraise _ _ ValueError). vm_compute. reflexivity.
Defined.

(** C4 (as amended).  Normalizing an output again with itself as base gives
    the same string, provided the output does not end in whitespace and has
    no [';'] after its last ['/']. *)
Theorem normalize_idempotent (u v : string) :
  normalize_and_clean_url u u = Some v →
  Str.strip v = v →
  Str.has ";" (snd (Str.rpartition "/" v)) = false →
  normalize_and_clean_url v v = Some v.
Proof.
  intros H Hstrip Hsemi.
  destruct (normalize_inv _ _ _ H) as (abs & pr & Hj & Hp & Hs & Hn & ->).
  pose proof (urlparse_parts _ _ _ Hp) as Hok.
  destruct (final_path_prefix (Urllib.path pr)) as [r Hr].
  assert (parts_ok (Urllib.netloc pr) (final_path (Urllib.path pr))) as Hok'.
  { apply parts_ok_prefix with r. by rewrite <- Hr. }
  assert (Str.has ";" (snd (Str.rpartition "/" (final_path (Urllib.path pr))))
          = false) as Hsemi'.
  { apply (last_segment_app (Urllib.netloc pr) _ (Urllib.scheme pr +:+ ":/"));
      [done|apply delims_slash, Hok|by apply Hok'|].
    by rewrite str_app_assoc. }
  rewrite (normalize_of_join _ _ _ _ _ Hs Hn Hok' Hsemi').
  - by rewrite final_path_idem.
  - rewrite Hstrip. by apply urljoin_canonical.
Qed.

Lemma normalize_idempotent_witness :
  normalize_and_clean_url "https://example.org/a/" "https://example.org/a/"
    = Some "https://example.org/a"
  ∧ normalize_and_clean_url "https://example.org/a" "https://example.org/a"
    = Some "https://example.org/a".
Proof.
  assert (normalize_and_clean_url "https://example.org/a/"
            "https://example.org/a/" = Some "https://example.org/a") as H
    by (vm_compute; reflexivity).
  split; [exact H|].
  apply (normalize_idempotent _ _ H); vm_compute; reflexivity.
Defined.

(** C4 as stated fails: an accepted URL whose output keeps a [';'] in its
    last segment loses it on the second pass. *)
Lemma normalizer_not_idempotent_counterexample :
  ¬ (∀ u v,
       normalize_and_clean_url u u = Some v →
       normalize_and_clean_url v v = Some v).
Proof.
  intros H.
  specialize (H "https://example.org/a;b/" "https://example.org/a;b").
  assert (normalize_and_clean_url "https://example.org/a;b"
            "https://example.org/a;b" = Some "https://example.org/a") as E
    by (vm_compute; reflexivity).
  rewrite H in E; [discriminate|vm_compute; reflexivity].
Qed.

(** ** Scope: host and file type *)

Section Scope.
Import Str Urllib.

Lemma split_rpartition c s :
  match rpartition c s with
  | (_, false, _) => split c s = [s]
  | (_, true, r) => ∃ h t, split c s = h :: t ∧ t ≠ [] ∧ List.last t "" = r
  end.
Proof.
  induction s as [|a s IH]; [done|]. cbn [rpartition split].
  destruct (rpartition c s) as [[b [|]] r].
  - destruct IH as (h & t & -> & Ht & Hl).
    destruct (Ascii.eqb a c).
    + exists "", (h :: t). split; [done|]. split; [done|].
      destruct t; [done|]. done.
    + by exists (String a h), t.
  - rewrite IH. destruct (Ascii.eqb a c) eqn:E; [|done].
    by exists "", [s].
Qed.

Lemma last_split c s : List.last (split c s) "" = snd (rpartition c s).
Proof.
  pose proof (split_rpartition c s) as H.
  pose proof (rpartition_spec c s) as H'.
  destruct (rpartition c s) as [[b [|]] r]; simpl.
  - destruct H as (h & t & -> & Ht & <-). by destruct t.
  - rewrite H. by destruct H' as (_ & -> & _).
Qed.

Lemma is_likely_html_page_spec url : is_likely_html_page url = likely_html url.
Proof.
  unfold is_likely_html_page, likely_html.
  destruct (urlparse url "") as [pr|e]; [|done].
  destruct (is_empty (path pr) || String.eqb (path pr) "/"); [done|].
  cbn [orb]. unfold extension, final_segment.
  rewrite !last_split.
  destruct (has "." _); [|done]. by destruct (member _ _).
Qed.
End Scope.

(** C5 (as amended).  [is_url_valid_for_host] holds exactly when the host of
    the URL is not empty, the lowercased host contains the lowercased
    substring, and the URL is likely HTML in the sense of the
    specification; the two examples of the specification evaluate as it
    says. *)
Theorem in_scope_iff_host_and_likely_html :
  (∀ url hostSubstring,
     is_url_valid_for_host url hostSubstring
     = negb (Str.is_empty (get_host_from_url url))
       && IsInScope_as_stated url hostSubstring)
  ∧ is_url_valid_for_host "https://sub.example.org/page" "example.org" = true
  ∧ is_url_valid_for_host "https://example.org/logo.png" "example.org" = false.
Proof.
  split; [|split; vm_compute; reflexivity].
  intros url sub. unfold is_url_valid_for_host, IsInScope_as_stated.
  rewrite is_likely_html_page_spec.
  destruct url as [|c url]; [done|]. cbn [Str.is_empty].
  by destruct (Str.is_empty (get_host_from_url (String c url))).
Qed.

(** C5 as stated fails where the host is empty and so is the substring:
    the code refuses a URL without a host before it compares anything. *)
Lemma in_scope_counterexample :
  is_url_valid_for_host "file:///page" "" = false
  ∧ IsInScope_as_stated "file:///page" "" = true.
Proof. split; vm_compute; reflexivity. Qed.

(** C10.  A bare host with and without the trailing slash normalizes to two
    different strings, whatever base parses; both are in scope, the dedup gate
    lets both into the queue, and both are recorded in the index. *)
Theorem bare_host_has_two_keys :
  (∀ base,
     Str.is_empty base = true ∨ (∃ b, Urllib.urlparse base "" = Ok b) →
     normalize_and_clean_url "https://example.org/" base
       = Some "https://example.org/"
     ∧ normalize_and_clean_url "https://example.org" base
       = Some "https://example.org")
  ∧ "https://example.org/" ≠ "https://example.org"
  ∧ is_url_valid_for_host "https://example.org/" "example.org" = true
  ∧ is_url_valid_for_host "https://example.org" "example.org" = true
  ∧ (∀ fs c,
       "https://example.org/" ∉ urls_in_session c →
       "https://example.org" ∉ urls_in_session c →
       url_exists_in_index "https://example.org/" fs = false →
       url_exists_in_index "https://example.org" fs = false →
       queue (fst (try_enqueue fs (fst (try_enqueue fs c "https://example.org/"))
                     "https://example.org"))
       = queue c ++ ["https://example.org/"; "https://example.org"])
  ∧ (let fs0 := mkFS (Content [["index"; "path"; "url"]]) Absent ∅ in
     let w1 := write_content_file no_faults "Hello" 1 "https://example.org/" fs0 in
     let w2 := write_content_file no_faults "Hello" 2 "https://example.org" (snd w1) in
     fst w1 = true ∧ fst w2 = true
     ∧ index_csv (snd w2)
       = Content [["index"; "path"; "url"];
                  ["1"; "files/1.txt"; "https://example.org/"];
                  ["2"; "files/2.txt"; "https://example.org"]]).
Proof.
  split; [|split; [discriminate|split; [vm_compute; reflexivity|
           split; [vm_compute; reflexivity|split]]]].
  - intros base Hbase.
    assert (parts_ok "example.org" "/" ∧ parts_ok "example.org" "") as [H1 H2].
    { split; split; try (vm_compute; reflexivity);
        intros _; try (vm_compute; reflexivity); [by right|by left]. }
    split.
    + apply (normalize_of_join _ _ "https" "example.org" "/"); try done.
      by apply (urljoin_absolute base "https" "example.org" "/").
    + apply (normalize_of_join _ _ "https" "example.org" ""); try done.
      by apply (urljoin_absolute base "https" "example.org" "").
  - intros fs c H1 H2 E1 E2. unfold try_enqueue.
    rewrite E1, E2. rewrite (bool_decide_eq_true_2 _ H1). cbn [negb andb fst].
    rewrite bool_decide_eq_true_2.
    + cbn [andb fst enqueue queue]. by rewrite <- List.app_assoc.
    + cbn [enqueue urls_in_session].
      intros [?|?%elem_of_singleton]%elem_of_union; [done|discriminate].
  - vm_compute. done.
Qed.

Lemma bare_host_has_two_keys_witness :
  normalize_and_clean_url "https://example.org/" "https://example.org/about"
    = Some "https://example.org/"
  ∧ normalize_and_clean_url "https://example.org" "https://example.org/about"
    = Some "https://example.org".
Proof.
  apply bare_host_has_two_keys. right. eexists. vm_compute. reflexivity.
Defined.

(** ** The frontier file *)

Section QueueFile.
Import Str.

Lemma split_app_sep c u rest :
  has c u = false → split c (u +:+ String c rest) = u :: split c rest.
Proof.
  induction u as [|a u IH]; intros H.
  - rewrite str_app_nil_l. cbn [split]. by rewrite Ascii.eqb_refl.
  - rewrite has_cons in H. apply orb_false_elim in H as [Ha Hu].
    rewrite str_app_cons. cbn [split].
    rewrite (Ascii.eqb_sym a c), Ha. by rewrite (IH Hu).
Qed.

Lemma universal_newlines_id s : has "013" s = false → universal_newlines s = s.
Proof.
  induction s as [|c s IH]; [done|]. rewrite has_cons.
  intros [Hc Hs]%orb_false_elim. cbn [universal_newlines].
  rewrite (Ascii.eqb_sym c "013"), Hc. by rewrite (IH Hs).
Qed.

Lemma save_text queue acc :
  fold_left (fun text url => text +:+ url +:+ String "010" "") queue acc
  = acc +:+ text_of queue.
Proof.
  revert acc. induction queue as [|u q IH]; intros acc; simpl.
  - by rewrite str_app_nil_r.
  - rewrite IH. by rewrite !str_app_assoc.
Qed.

Lemma text_of_no_cr queue :
  Forall plain_entry queue → has "013" (text_of queue) = false.
Proof.
  induction 1 as [|u q (_ & _ & _ & Hu) _ IH]; [done|]. simpl.
  by rewrite has_app, Hu, has_cons, IH.
Qed.

Lemma lines_of_text queue :
  Forall plain_entry queue → lines_of (text_of queue) = queue ++ [""].
Proof.
  intros Hq. unfold lines_of.
  rewrite universal_newlines_id by by apply text_of_no_cr.
  induction Hq as [|u q (_ & _ & Hu & _) _ IH]; [done|]. simpl.
  by rewrite split_app_sep, IH.
Qed.
End QueueFile.

(** C7 (as amended).  Restoring a snapshot gives the queue back, in order,
    when every entry is non-empty, has no whitespace at either end and
    contains no line terminator. *)
Theorem restore_snapshot_roundtrip (fs : FS) (Q : list string) :
  Forall plain_entry Q →
  load_queue_from_file (save_queue_to_file false Q fs) = Q.
Proof.
  intros HQ. unfold load_queue_from_file, save_queue_to_file.
  cbn [crawl_queue_txt]. rewrite save_text, str_app_nil_l, lines_of_text by done.
  induction HQ as [|u q (Hne & Hs & _) _ IH]; [done|].
  cbn [app List.filter]. rewrite Hs.
  apply is_empty_false in Hne. rewrite Hne. cbn [negb List.map].
  by rewrite Hs, IH.
Qed.

Lemma restore_snapshot_roundtrip_witness :
  load_queue_from_file
    (save_queue_to_file false
       ["https://example.org/a"; "https://example.org/b c"]
       (mkFS Absent Absent ∅))
  = ["https://example.org/a"; "https://example.org/b c"].
Proof.
  apply restore_snapshot_roundtrip.
  repeat constructor; vm_compute; congruence.
Defined.

(** C7 as stated fails: the normalizer can put a URL that ends in a space
    on the queue, and restoring strips it. *)
Lemma restore_snapshot_counterexample :
  normalize_and_clean_url "/a #x" "https://example.org/"
    = Some "https://example.org/a "
  ∧ is_url_valid_for_host "https://example.org/a " "example.org" = true
  ∧ load_queue_from_file
      (save_queue_to_file false ["https://example.org/a "]
         (mkFS Absent Absent ∅))
    ≠ ["https://example.org/a "].
Proof.
  split; [vm_compute; reflexivity|].
  split; [vm_compute; reflexivity|]. vm_compute. discriminate.
Qed.

(** ** The index *)

Section Index.

Lemma to_numeric_str z : to_numeric (str_of_int z) = Some z.
Proof.
  unfold to_numeric, str_of_int.
  rewrite NilZero.isi.
  - simpl. by rewrite DecimalZ.of_to.
  - destruct z; simpl; try done.
    intros [= H]. by apply Unsigned.to_uint_nonnil in H.
  - destruct z; simpl; try done.
    intros [= H]. by apply Unsigned.to_uint_nonnil in H.
Qed.



Lemma rows_not_ragged rs :
  List.existsb (fun row => (3 <? length row)%nat) (List.map row_of_record rs)
  = false.
Proof. induction rs as [|r rs IH]; [done|]. simpl. exact IH. Qed.

Lemma read_csv_records rs :
  read_csv (index_of_records rs)
  = Ok (mkDataFrame index_header 0 (List.map row_of_record rs)).
Proof.
  unfold read_csv, index_of_records.
  destruct rs as [|r rs]; [done|].
  pose proof (rows_not_ragged (r :: rs)) as H.
  cbn [List.map] in *.
  change (Nat.max (length index_header) (length (row_of_record r))) with 3%nat.
  by rewrite H.
Qed.


Lemma url_cells rs url :
  List.existsb (fun cell : option string => bool_decide (cell = Some url))
    (List.map (fun row : list string => row !! 2%nat)
       (List.map row_of_record rs)) = true
  ↔ ∃ r, r ∈ rs ∧ sourceURL r = url.
Proof.
  induction rs as [|r rs IH]; simpl.
  - split; [done|]. intros (r & Hr & _). by apply elem_of_nil in Hr.
  - rewrite orb_true_iff, IH, bool_decide_eq_true. split.
    + intros [[= H]|(r' & Hr & H)].
      * exists r. split; [apply list_elem_of_here|done].
      * exists r'. split; [by apply list_elem_of_further|done].
    + intros (r' & Hr & H). apply elem_of_cons in Hr as [->|Hr].
      * left. by rewrite H.
      * right. eauto.
Qed.
End Index.

(** ** The dedup gate *)

Section DedupGate.

Lemma try_enqueue_spec fs c u :
  (snd (try_enqueue fs c u) = true)
  ↔ ((u ∉ urls_in_session c) ∧ url_exists_in_index u fs = false).
Proof.
  unfold try_enqueue.
  destruct (bool_decide (u ∉ urls_in_session c)) eqn:Hs;
    destruct (url_exists_in_index u fs) eqn:Hi; simpl.
  - apply bool_decide_eq_true in Hs. split; [done|]. by intros [_ ?].
  - apply bool_decide_eq_true in Hs. done.
  - apply bool_decide_eq_false in Hs. split; [done|]. by intros [? _].
  - apply bool_decide_eq_false in Hs. split; [done|]. by intros [? _].
Qed.

Lemma try_enqueue_enqueued fs c u :
  snd (try_enqueue fs c u) = true → fst (try_enqueue fs c u) = enqueue u c.
Proof. unfold try_enqueue. by destruct (_ && _). Qed.

Lemma try_enqueue_skipped fs c u :
  snd (try_enqueue fs c u) = false → fst (try_enqueue fs c u) = c.
Proof. unfold try_enqueue. by destruct (_ && _). Qed.

End DedupGate.

(** ** Reading the index *)

Section IndexReads.

Lemma read_failure_fails_open fs e :
  read_csv (index_csv fs) = Raise e →
  get_max_index fs = 0%Z ∧ ∀ url, url_exists_in_index url fs = false.
Proof.
  intros H. unfold get_max_index, url_exists_in_index. rewrite H.
  split; [|intros url]; destruct (negb _); by destruct e.
Qed.

Lemma absent_empty_unreadable fs :
  index_csv fs = Absent ∨ index_csv fs = Unreadable ∨ index_csv fs = Content [] →
  ∃ e, read_csv (index_csv fs) = Raise e.
Proof. intros [->|[->| ->]]; simpl; eauto. Qed.

Lemma header_only_index fs header :
  index_csv fs = Content [header] →
  get_max_index fs = 0%Z ∧ ∀ url, url_exists_in_index url fs = false.
Proof.
  intros H. unfold get_max_index, url_exists_in_index. rewrite H. simpl.
  unfold column. simpl. split; [|intros url]; by destruct (position _ _).
Qed.


Lemma url_exists_in_index_records q fl rs url :
  url_exists_in_index url (mkFS (index_of_records rs) q fl) = true
  ↔ ∃ r, r ∈ rs ∧ sourceURL r = url.
Proof.
  unfold url_exists_in_index. cbn [index_csv].
  rewrite read_csv_records. cbn [index_of_records exists_ negb].
  unfold column, empty.
  cbn [columns index_header position String.eqb Ascii.eqb Bool.eqb
       leading_cols data mbind option_bind Nat.add fmap option_fmap option_map].
  destruct rs as [|r rs].
  - simpl. split; [done|]. intros (r & Hr & _). by apply elem_of_nil in Hr.
  - cbn [List.map]. apply (url_cells (r :: rs)).
Qed.

End IndexReads.

(** ** An index without header row *)

Section Headerless.

Lemma position_none name l : name ∉ l → position name l = None.
Proof.
  induction l as [|x l IH]; [done|].
  intros [Hx Hl]%not_elem_of_cons. cbn [position].
  apply String.eqb_neq in Hx. rewrite Hx. by rewrite (IH Hl).
Qed.

Lemma no_index_column fs header body :
  index_csv fs = Content (header :: body) →
  "index" ∉ header → get_max_index fs = 0%Z.
Proof.
  intros H Hh. unfold get_max_index. rewrite H. cbn [exists_ negb].
  destruct (read_csv _) as [df|e] eqn:E; [|by destruct e].
  assert (columns df = header) as Hc.
  { unfold read_csv in E. destruct (List.existsb _ _); [done|].
    by injection E as <-. }
  unfold column. by rewrite Hc, (position_none _ _ Hh).
Qed.

Lemma no_url_column fs header body url :
  index_csv fs = Content (header :: body) →
  "url" ∉ header → url_exists_in_index url fs = false.
Proof.
  intros H Hh. unfold url_exists_in_index. rewrite H. cbn [exists_ negb].
  destruct (read_csv _) as [df|e] eqn:E; [|by destruct e].
  assert (columns df = header) as Hc.
  { unfold read_csv in E. destruct (List.existsb _ _); [done|].
    by injection E as <-. }
  unfold column. by rewrite Hc, (position_none _ _ Hh).
Qed.

Lemma str_of_int_not_a_name z name :
  to_numeric name = None → str_of_int z ≠ name.
Proof. intros Hn E. rewrite <- E, to_numeric_str in Hn. done. Qed.

Lemma first_row_is_no_header index url :
  url ≠ "index" → url ≠ "url" →
  ("index" ∉ [str_of_int index; content_path index; url])
  ∧ ("url" ∉ [str_of_int index; content_path index; url]).
Proof.
  intros H1 H2.
  assert (∀ name, to_numeric name = None → name ≠ url →
            (∀ rest, name ≠ String "f" rest) →
            name ∉ [str_of_int index; content_path index; url]) as H.
  { intros name Hn Hu Hf.
    rewrite !not_elem_of_cons. split; [|split; [|split]].
    - intros E. by apply (str_of_int_not_a_name index name).
    - apply Hf.
    - done.
    - apply not_elem_of_nil. }
  split; apply H; try done.
Qed.

(** X12.  An index that [write_content_file] started on an absent
    [index.csv] stays without header row, whatever is appended to it later:
    no URL is ever found in it and the maximum index read from it is 0. *)
Lemma index_without_header_row content index url q fl :
  url ≠ "index" → url ≠ "url" →
  let w := write_content_file no_faults content index url (mkFS Absent q fl) in
  fst w = true
  ∧ index_csv (snd w) = Content [[str_of_int index; content_path index; url]]
  ∧ ∀ fs body,
      index_csv fs
      = Content ([str_of_int index; content_path index; url] :: body) →
      get_max_index fs = 0%Z ∧ ∀ u, url_exists_in_index u fs = false.
Proof.
  intros H1 H2 w. split; [done|]. split; [done|].
  intros fs body H.
  destruct (first_row_is_no_header index url H1 H2) as [Hi Hu].
  split; [by eapply no_index_column|].
  intros u. by eapply no_url_column.
Qed.

Lemma seeding_keeps_index fs seeds c :
  current_index
    (fold_left
       (fun c url =>
          if is_url_valid_for_host url (host_includes c)
             && negb (url_exists_in_index url fs)
          then if bool_decide (url ∉ urls_in_session c) then enqueue url c
               else c
          else c)
       seeds c)
  = current_index c.
Proof.
  revert c. induction seeds as [|s seeds IH]; intros c; [done|].
  cbn [fold_left]. rewrite IH.
  destruct (_ && _); [|done]. by case_bool_decide.
Qed.

Lemma first_index fs host seeds mw :
  current_index (Crawler_init fs host seeds mw) = (get_max_index fs + 1)%Z.
Proof.
  unfold Crawler_init, _initialize_queue. cbn [queue].
  destruct (load_queue_from_file fs); [|done]. by rewrite seeding_keeps_index.
Qed.

End Headerless.

(** ** Appending to the index *)

Section Append.





End Append.



(** C8.  An index that [write_content_file] started on an absent
    [index.csv] has no header row, so [read_csv] takes its first record for
    the header: the file is read without error, yet [get_max_index] is 0,
    [url_exists_in_index] is [False] for the URLs on record, and the next
    run starts again at index 1. *)
Theorem fresh_index_is_not_read_back :
  let u1 := "https://example.org/a" in
  let u2 := "https://example.org/b" in
  let w1 := write_content_file no_faults "Hello" 1 u1 (mkFS Absent Absent ∅) in
  let w2 := write_content_file no_faults "World" 2 u2 (snd w1) in
  fst w1 = true ∧ fst w2 = true
  ∧ index_csv (snd w2)
    = Content [["1"; "files/1.txt"; u1]; ["2"; "files/2.txt"; u2]]
  ∧ read_csv (index_csv (snd w2))
    = Ok (mkDataFrame ["1"; "files/1.txt"; u1] 0 [["2"; "files/2.txt"; u2]])
  ∧ get_max_index (snd w2) = 0%Z
  ∧ url_exists_in_index u1 (snd w2) = false
  ∧ url_exists_in_index u2 (snd w2) = false
  ∧ current_index (Crawler_init (snd w2) "example.org" [] 10) = 1%Z.
Proof. vm_compute. repeat split; reflexivity. Qed.

(** C1.  A run that starts without [index.csv] records its seed, and the
    record does not close the dedup gate: [write_content_file] creates the
    index without a header row, so in a later run that reloads the index
    [url_exists_in_index] is [False] for the recorded URL, the loop of
    [_process_url] appends it to the queue again, and so does the seeding. *)
Theorem recorded_url_is_enqueued_again :
  let u := "https://example.org/a" in
  let fs0 := mkFS Absent Absent ∅ in
  let c0 := Crawler_init fs0 "example.org" [u] 10 in
  let w1 :=
    _process_url no_faults (Some (mkSoup "Hello" [])) u
      (snd (dequeue 0 c0), fs0) in
  let fs1 := save_queue_to_file false (queue (fst w1)) (snd w1) in
  let c1 := Crawler_init fs1 "example.org" ["https://example.org/b"] 10 in
  queue c0 = [u]
  ∧ queue (fst w1) = []
  ∧ index_csv fs1 = Content [["1"; "files/1.txt"; u]]
  ∧ url_exists_in_index u fs1 = false
  ∧ snd (try_enqueue fs1 c1 u) = true
  ∧ queue (fst (try_enqueue fs1 c1 u)) = ["https://example.org/b"; u]
  ∧ queue (Crawler_init fs1 "example.org" [u] 10) = [u].
Proof. vm_compute. repeat split; reflexivity. Qed.

(** ** The session set and the queue *)

Section Session.

Lemma enqueue_covers u c :
  session_covers_queue c → session_covers_queue (enqueue u c).
Proof.
  intros H v. unfold enqueue. cbn [queue urls_in_session].
  rewrite elem_of_app, list_elem_of_singleton, elem_of_union, elem_of_singleton.
  intros [Hv|Hv]; [left; by apply H|by right].
Qed.

Lemma enqueue_nodup u c :
  session_covers_queue c → u ∉ urls_in_session c →
  NoDup (queue c) → NoDup (queue (enqueue u c)).
Proof.
  intros H Hu Hnd. unfold enqueue. cbn [queue].
  apply NoDup_app. split; [done|]. split.
  - intros v Hv ->%list_elem_of_singleton. by apply Hu, H.
  - apply NoDup_singleton.
Qed.

(** What the loop of [_initialize_queue] keeps true. *)
Lemma seeding_keeps fs seeds c :
  let body := fun c url =>
    if is_url_valid_for_host url (host_includes c)
       && negb (url_exists_in_index url fs)
    then if bool_decide (url ∉ urls_in_session c) then enqueue url c else c
    else c in
  session_covers_queue c → NoDup (queue c) →
  session_covers_queue (fold_left body seeds c)
  ∧ NoDup (queue (fold_left body seeds c)).
Proof.
  intros body. revert c. induction seeds as [|s seeds IH]; intros c Hc Hnd.
  - done.
  - cbn [fold_left]. apply IH; unfold body.
    + destruct (_ && _); [|done]. case_bool_decide; [|done].
      by apply enqueue_covers.
    + destruct (_ && _); [|done]. case_bool_decide; [|done].
      by apply enqueue_nodup.
Qed.

Lemma restored_covers l host mw z :
  session_covers_queue (mkCrawler host z mw l (list_to_set l)).
Proof. intros u. cbn [queue urls_in_session]. by rewrite elem_of_list_to_set. Qed.

Lemma init_covers fs host seeds mw :
  session_covers_queue (Crawler_init fs host seeds mw).
Proof.
  unfold Crawler_init, _initialize_queue. cbn [queue].
  destruct (load_queue_from_file fs) as [|q0 q] eqn:E.
  - apply seeding_keeps; [apply restored_covers|apply NoDup_nil_2].
  - apply restored_covers.
Qed.

Lemma init_restores fs host seeds mw u :
  u ∈ load_queue_from_file fs →
  u ∈ urls_in_session (Crawler_init fs host seeds mw).
Proof.
  intros Hu. unfold Crawler_init, _initialize_queue. cbn [queue].
  destruct (load_queue_from_file fs) as [|q0 q] eqn:E.
  - by apply elem_of_nil in Hu.
  - cbn [urls_in_session]. by rewrite elem_of_list_to_set.
Qed.

Lemma seeded_nodup fs host seeds mw :
  NoDup (seeded fs (Crawler_init fs host seeds mw)).
Proof.
  unfold seeded, Crawler_init, _initialize_queue. cbn [queue].
  destruct (load_queue_from_file fs) as [|q0 q] eqn:E; [|apply NoDup_nil_2].
  apply seeding_keeps; [apply restored_covers|apply NoDup_nil_2].
Qed.

Lemma seeded_in_session fs host seeds mw u :
  u ∈ seeded fs (Crawler_init fs host seeds mw) →
  u ∈ urls_in_session (Crawler_init fs host seeds mw).
Proof.
  unfold seeded. destruct (load_queue_from_file fs).
  - apply init_covers.
  - by intros ?%elem_of_nil.
Qed.

Lemma step_covers w l w' :
  step w l w' → session_covers_queue (fst w) → session_covers_queue (fst w').
Proof.
  destruct 1 as [c fs n|c fs wf|c fs|c fs flt ct ix url|c fs u Hu|c fs u Hu];
    cbn [fst]; intros H; try done.
  - intros u. unfold dequeue. cbn [snd queue urls_in_session].
    intros Hin. apply H. by eapply subseteq_drop.
  - rewrite try_enqueue_enqueued by done. by apply enqueue_covers.
  - by rewrite try_enqueue_skipped.
Qed.

Lemma step_session w l w' :
  step w l w' → urls_in_session (fst w) ⊆ urls_in_session (fst w').
Proof.
  destruct 1 as [c fs n|c fs wf|c fs|c fs flt ct ix url|c fs u Hu|c fs u Hu];
    cbn [fst]; try done.
  - rewrite try_enqueue_enqueued by done. unfold enqueue.
    cbn [urls_in_session]. apply union_subseteq_l.
  - by rewrite try_enqueue_skipped.
Qed.

Lemma step_label w u w' :
  step w (Some u) w' →
  (u ∉ urls_in_session (fst w)) ∧ u ∈ urls_in_session (fst w').
Proof.
  inversion 1 as [| | | |c fs u' Hu|]; subst. cbn [fst].
  pose proof Hu as [Hs _]%try_enqueue_spec. split; [done|].
  rewrite try_enqueue_enqueued by done. unfold enqueue.
  cbn [urls_in_session]. apply elem_of_union_r. by apply elem_of_singleton.
Qed.

Lemma run_history w tr w' :
  run w tr w' →
  urls_in_session (fst w) ⊆ urls_in_session (fst w')
  ∧ NoDup tr
  ∧ ∀ u, u ∈ tr →
      (u ∉ urls_in_session (fst w)) ∧ u ∈ urls_in_session (fst w').
Proof.
  induction 1 as [w|w1 w2 w3 l tr Hrun (Hsub & Hnd & Htr) Hstep].
  - split; [done|]. split; [apply NoDup_nil_2|]. by intros u ?%elem_of_nil.
  - pose proof (step_session _ _ _ Hstep) as Hsub'.
    split; [by etrans|].
    destruct l as [u|]; cbn [option_list].
    + apply step_label in Hstep as [Hnew Hin]. split.
      * apply NoDup_app. split; [done|]. split; [|apply NoDup_singleton].
        intros v Hv ->%list_elem_of_singleton. by apply Hnew, Htr.
      * intros v [Hv| ->%list_elem_of_singleton]%elem_of_app.
        -- destruct (Htr v Hv) as [? ?]. split; [done|]. by apply Hsub'.
        -- split; [|done]. intros Hw. by apply Hnew, Hsub.
    + rewrite app_nil_r. split; [done|].
      intros v Hv. destruct (Htr v Hv) as [? ?]. split; [done|]. by apply Hsub'.
Qed.

Lemma run_covers w tr w' :
  run w tr w' → session_covers_queue (fst w) → session_covers_queue (fst w').
Proof. induction 1; [done|]. intros. eapply step_covers; eauto. Qed.

Lemma run_trans w1 tr1 w2 tr2 w3 :
  run w1 tr1 w2 → run w2 tr2 w3 → run w1 (tr1 ++ tr2) w3.
Proof.
  intros H1 H2. induction H2 as [w|w2 w3 w4 l tr H2 IH Hstep].
  - by rewrite app_nil_r.
  - rewrite app_assoc. eapply run_step; [by apply IH|done].
Qed.

Lemma run_one w l w' : step w l w' → run w (option_list l) w'.
Proof. intros H. apply (run_step w w w' l [] (run_nil w) H). Qed.

(** The loop of [_process_url] over the links of a page is a run. *)
Lemma enqueue_all_run fs urls c :
  ∃ tr,
    run (c, fs) tr
      (fold_left (fun c new_url => fst (try_enqueue fs c new_url)) urls c, fs).
Proof.
  revert c. induction urls as [|u urls IH]; intros c.
  - exists []. apply run_nil.
  - cbn [fold_left].
    destruct (IH (fst (try_enqueue fs c u))) as [tr Htr].
    destruct (snd (try_enqueue fs c u)) eqn:E.
    + exists ([u] ++ tr). eapply run_trans; [|exact Htr].
      apply (run_one _ (Some u)). by apply step_enqueued.
    + exists ([] ++ tr). eapply run_trans; [|exact Htr].
      apply (run_one _ None). by apply step_skipped.
Qed.

(** One call of [_process_url] is a run of the step relation. *)
Lemma process_url_run flt page url w :
  ∃ tr, run w tr (_process_url flt page url w).
Proof.
  destruct w as [c fs]. unfold _process_url.
  destruct (url_exists_in_index url fs); [exists []; apply run_nil|].
  destruct page as [soup|]; [|exists []; apply run_nil].
  cbn [take_index]. cbv zeta.
  set (c1 := mkCrawler _ _ _ _ _).
  assert (run (c, fs) [] (c1, fs)) as H1.
  { apply (run_one (c, fs) None). apply (step_take_index c fs). }
  pose proof (step_append c1 fs flt (soup_text soup) (current_index c) url) as H2.
  apply (run_one _ None) in H2. cbn [option_list] in H2.
  destruct (write_content_file _ _ _ _ _) as [written fs'].
  cbn [snd] in H2.
  destruct written.
  - destruct (enqueue_all_run fs'
                (elements (extract_valid_urls soup url (host_includes c1))) c1)
      as [tr Htr].
    exists (([] ++ []) ++ tr).
    eapply run_trans; [|exact Htr]. by eapply run_trans.
  - exists ([] ++ []). by eapply run_trans.
Qed.

End Session.

(** C6.  [Crawler.__init__] puts every restored and every seeded URL in the
    session set; every step of a run keeps every queued URL in the session
    set and removes nothing from it; and a run appends no URL to the queue
    twice: the URLs that seeding and the workers append are pairwise
    distinct, and none of them was in the restored queue. *)
Theorem session_covers_frontier_and_enqueues_once :
  (∀ fs host seeds mw,
     let c0 := Crawler_init fs host seeds mw in
     (∀ u, u ∈ load_queue_from_file fs → u ∈ urls_in_session c0)
     ∧ session_covers_queue c0)
  ∧ (∀ w l w',
       step w l w' →
       (session_covers_queue (fst w) → session_covers_queue (fst w'))
       ∧ urls_in_session (fst w) ⊆ urls_in_session (fst w'))
  ∧ (∀ fs host seeds mw tr w',
       let c0 := Crawler_init fs host seeds mw in
       run (c0, fs) tr w' →
       session_covers_queue (fst w')
       ∧ urls_in_session c0 ⊆ urls_in_session (fst w')
       ∧ NoDup (seeded fs c0 ++ tr)
       ∧ ∀ u, u ∈ tr → u ∉ load_queue_from_file fs).
Proof.
  split; [|split].
  - intros fs host seeds mw c0. split; [|apply init_covers].
    intros u. apply init_restores.
  - intros w l w' Hstep. split; [apply (step_covers _ _ _ Hstep)|apply (step_session _ _ _ Hstep)].
  - intros fs host seeds mw tr w' c0 Hrun.
    pose proof (run_history _ _ _ Hrun) as (Hsub & Hnd & Htr).
    cbn [fst] in Hsub, Htr.
    split; [|split; [done|split]].
    + apply (run_covers _ _ _ Hrun). apply init_covers.
    + apply NoDup_app. split; [apply seeded_nodup|]. split; [|done].
      intros u Hu Hu'. apply (Htr u Hu'). by apply seeded_in_session.
    + intros u Hu Hq. apply (Htr u Hu). by apply init_restores.
Qed.

Lemma session_covers_frontier_and_enqueues_once_witness :
  NoDup ["https://example.org/"; "https://example.org/b"].
Proof.
  pose (fs := mkFS Absent Absent ∅).
  pose (seeds := ["https://example.org/"; "https://example.org/"]).
  pose (c0 := Crawler_init fs "example.org" seeds 2).
  pose (c1 := snd (dequeue 0 c0)).
  destruct session_covers_frontier_and_enqueues_once as (_ & _ & H).
  destruct (H fs "example.org" seeds 2
              (([] ++ option_list None)
               ++ option_list (Some "https://example.org/b"))
              (fst (try_enqueue fs c1 "https://example.org/b"), fs))
    as (_ & _ & Hnd & _).
  - eapply run_step.
    + eapply run_step; [apply run_nil|apply (step_dequeue c0 fs 0)].
    + apply step_enqueued. vm_compute. reflexivity.
  - vm_compute in Hnd. exact Hnd.
Defined.

(** ** An index that has its header row

    What the dedup gate gives when the header row is there: the records only
    grow, so a recorded URL stays recorded and is never queued again. *)

Section HeaderRow.

Lemma write_appends_record flt content index url q fl rs :
  let w := write_content_file flt content index url
             (mkFS (index_of_records rs) q fl) in
  index_csv (snd w)
  = index_of_records
      (if fst w then rs ++ [mkIndexRecord index (content_path index) url]
       else rs).
Proof.
  unfold write_content_file.
  destruct (url_exists_in_index _ _); [done|].
  destruct flt as [[] [] []]; cbn [makedirs_fails content_write_fails
    index_append_fails fst snd index_csv]; try done.
  unfold index_of_records, append_row.
  by rewrite List.map_app.
Qed.


Lemma step_grows_records w l w' rs :
  step w l w' → index_csv (snd w) = index_of_records rs →
  ∃ rs', index_csv (snd w') = index_of_records (rs ++ rs').
Proof.
  destruct 1 as [c fs n|c fs wf|c fs|c fs flt ct ix url|c fs u Hu|c fs u Hu];
    cbn [snd]; intros H;
    try (exists []; by rewrite app_nil_r).
  - exists []. rewrite app_nil_r. unfold save_queue_to_file.
    by destruct wf.
  - destruct fs as [i q fl]. cbn [index_csv] in H. subst i.
    rewrite write_appends_record. destruct (fst _); [eauto|].
    exists []. by rewrite app_nil_r.
Qed.

Lemma run_grows_records w tr w' rs :
  run w tr w' → index_csv (snd w) = index_of_records rs →
  ∃ rs', index_csv (snd w') = index_of_records (rs ++ rs').
Proof.
  induction 1 as [w|w1 w2 w3 l tr Hrun IH Hstep]; intros H.
  - exists []. by rewrite app_nil_r.
  - destruct (IH H) as [rs1 H1].
    destruct (step_grows_records _ _ _ _ Hstep H1) as [rs2 H2].
    exists (rs1 ++ rs2). by rewrite app_assoc.
Qed.

Lemma step_skips_recorded w u w' :
  step w (Some u) w' → url_exists_in_index u (snd w) = false.
Proof.
  inversion 1 as [| | | |c fs u' Hu|]; subst. cbn [snd].
  by pose proof Hu as [_ Hi]%try_enqueue_spec.
Qed.

(** X11.  With the header row, a recorded URL stays recorded through a
    run, no step of the run puts it on the queue, and the dedup gate skips
    it whatever the crawler state. *)
Lemma recorded_stays_skipped w tr w' rs u :
  index_csv (snd w) = index_of_records rs →
  url_exists_in_index u (snd w) = true →
  run w tr w' →
  (u ∉ tr) ∧ url_exists_in_index u (snd w') = true
  ∧ ∀ c, snd (try_enqueue (snd w') c u) = false.
Proof.
  intros Hix Hu Hrun.
  assert (∀ fs rs', index_csv fs = index_of_records (rs ++ rs') →
            url_exists_in_index u fs = true) as Hkeep.
  { intros [i q fl] rs' Hi. cbn [index_csv] in Hi. subst i.
    destruct (snd w) as [i q0 fl0] eqn:E. cbn [index_csv] in Hix. subst i.
    apply url_exists_in_index_records in Hu as (r & Hr & Hs).
    apply url_exists_in_index_records. exists r. split; [|done].
    apply elem_of_app. by left. }
  induction Hrun as [w|w1 w2 w3 l tr Hrun IH Hstep].
  - split; [by intros ?%elem_of_nil|]. split; [done|].
    intros c. unfold try_enqueue. rewrite Hu. by rewrite andb_false_r.
  - destruct (IH Hix Hu) as (Hnot & Hu2 & _).
    destruct (run_grows_records _ _ _ _ Hrun Hix) as [rs1 H1].
    destruct (step_grows_records _ _ _ _ Hstep H1) as [rs2 H2].
    rewrite <- app_assoc in H2. pose proof (Hkeep _ _ H2) as Hu3.
    split; [|split; [done|]].
    + destruct l as [v|]; cbn [option_list]; [|by rewrite app_nil_r].
      intros [Hin| ->%list_elem_of_singleton]%elem_of_app; [done|].
      apply step_skips_recorded in Hstep. congruence.
    + intros c. unfold try_enqueue. rewrite Hu3. by rewrite andb_false_r.
Qed.

End HeaderRow.

(** * Further properties of the code *)

(** ** [strip] and [lower] *)

Section StripLower.
Import Str.

Lemma lstrip_p_fixed p s :
  lstrip_p p s = "" ∨ ∃ c t, lstrip_p p s = String c t ∧ p c = false.
Proof.
  induction s as [|c s IH]; [by left|]. cbn [lstrip_p].
  destruct (p c) eqn:E; [done|]. right. by exists c, s.
Qed.

Lemma rstrip_p_keeps_head p c t :
  p c = false → ∃ t', rstrip_p p (String c t) = String c t'.
Proof.
  intros Hc. cbn [rstrip_p]. destruct (rstrip_p p t); [|eauto].
  rewrite Hc. eauto.
Qed.

Lemma strip_p_idem p s : strip_p p (strip_p p s) = strip_p p s.
Proof.
  unfold strip_p.
  destruct (lstrip_p_fixed p s) as [->|(c & t & -> & Hc)]; [done|].
  destruct (rstrip_p_keeps_head p c t Hc) as [t' E].
  rewrite E, (lstrip_p_nohit _ _ _ Hc), <- E. apply rstrip_p_idem.
Qed.

Lemma strip_idem s : strip (strip s) = strip s.
Proof. apply strip_p_idem. Qed.

Lemma lower_char_idem c : lower_char (lower_char c) = lower_char c.
Proof. destruct c as [[] [] [] [] [] [] [] []]; reflexivity. Qed.

Lemma lower_idem s : lower (lower s) = lower s.
Proof.
  induction s as [|c s IH]; [done|]. cbn [lower].
  by rewrite lower_char_idem, IH.
Qed.

End StripLower.

(** ** Normalized URLs *)

Section Normalized.
Import Str Urllib.

Lemma normalized_parts href base v :
  normalize_and_clean_url href base = Some v →
  ∃ sch nl pa,
    member sch ["http"; "https"] = true ∧ nl ≠ "" ∧ parts_ok nl pa
    ∧ v = sch +:+ "://" +:+ nl +:+ pa.
Proof.
  intros H.
  destruct (normalize_inv _ _ _ H) as (abs & pr & Hj & Hp & Hs & Hn & ->).
  pose proof (urlparse_parts _ _ _ Hp) as Hok.
  destruct (final_path_prefix (path pr)) as [r Hr].
  exists (scheme pr), (netloc pr), (final_path (path pr)).
  split; [done|]. split; [done|]. split; [|done].
  apply parts_ok_prefix with r. by rewrite <- Hr.
Qed.

Lemma canonical_host sch nl pa :
  member sch ["http"; "https"] = true → nl ≠ "" → parts_ok nl pa →
  get_host_from_url (sch +:+ "://" +:+ nl +:+ pa) = nl.
Proof.
  intros Hs Hn Hok. unfold get_host_from_url, urlparse.
  rewrite (urlsplit_canonical _ _ _ "" Hs Hn Hok). rsimpl.
  by destruct (if _ : bool then _ else _).
Qed.

End Normalized.

(** X1.  The host of a normalized URL is the netloc of the resolved URL and
    is not empty, and the URL starts with its scheme, http or https: on the
    output of [normalize_and_clean_url] the guard [if not host] of
    [is_url_valid_for_host] never fires. *)
Theorem normalized_url_has_host href base v :
  normalize_and_clean_url href base = Some v →
  ∃ absolute_url url_parts,
    Urllib.urljoin base (Str.strip href) = Ok absolute_url
    ∧ Urllib.urlparse absolute_url "" = Ok url_parts
    ∧ get_host_from_url v = Urllib.netloc url_parts
    ∧ get_host_from_url v ≠ ""
    ∧ (Str.startswith "http://" v = true ∨ Str.startswith "https://" v = true).
Proof.
  intros H.
  destruct (normalize_inv _ _ _ H) as (abs & pr & Hj & Hp & Hs & Hn & ->).
  exists abs, pr. split; [done|]. split; [done|].
  pose proof (urlparse_parts _ _ _ Hp) as Hok.
  destruct (final_path_prefix (Urllib.path pr)) as [r Hr].
  assert (parts_ok (Urllib.netloc pr) (final_path (Urllib.path pr))) as Hok'.
  { apply parts_ok_prefix with r. by rewrite <- Hr. }
  rewrite (canonical_host _ _ _ Hs Hn Hok').
  split; [done|]. split; [done|].
  destruct (http_or_https _ Hs) as [-> | ->]; [by left|by right].
Qed.

Lemma normalized_url_has_host_witness :
  ∃ absolute_url url_parts,
    Urllib.urljoin "https://example.org/a/b" (Str.strip " ../c?x=1 ")
      = Ok absolute_url
    ∧ Urllib.urlparse absolute_url "" = Ok url_parts
    ∧ get_host_from_url "https://example.org/c" = Urllib.netloc url_parts
    ∧ get_host_from_url "https://example.org/c" ≠ ""
    ∧ (Str.startswith "http://" "https://example.org/c" = true
       ∨ Str.startswith "https://" "https://example.org/c" = true).
Proof.
  apply (normalized_url_has_host " ../c?x=1 " "https://example.org/a/b").
  vm_compute. reflexivity.
Defined.

(** X2.  A normalized URL that is linked in full from any page normalizes
    to itself, whatever the page: the base does not matter for it.  As for
    a second pass over the normalizer's own output, the URL must not end in
    whitespace nor have a [';'] in its last segment, and the base must be
    empty or parse. *)
Theorem normalized_link_resolves_to_itself href page v base :
  normalize_and_clean_url href page = Some v →
  Str.strip v = v →
  Str.has ";" (snd (Str.rpartition "/" v)) = false →
  Str.is_empty base = true ∨ (∃ b, Urllib.urlparse base "" = Ok b) →
  normalize_and_clean_url v base = Some v.
Proof.
  intros H Hstrip Hsemi Hbase.
  destruct (normalize_inv _ _ _ H) as (abs & pr & Hj & Hp & Hs & Hn & ->).
  pose proof (urlparse_parts _ _ _ Hp) as Hok.
  destruct (final_path_prefix (Urllib.path pr)) as [r Hr].
  assert (parts_ok (Urllib.netloc pr) (final_path (Urllib.path pr))) as Hok'.
  { apply parts_ok_prefix with r. by rewrite <- Hr. }
  assert (Str.has ";" (snd (Str.rpartition "/" (final_path (Urllib.path pr))))
          = false) as Hsemi'.
  { apply (last_segment_app (Urllib.netloc pr) _ (Urllib.scheme pr +:+ ":/"));
      [done|apply delims_slash, Hok|by apply Hok'|].
    by rewrite str_app_assoc. }
  rewrite (normalize_of_join _ _ _ _ _ Hs Hn Hok' Hsemi').
  - by rewrite final_path_idem.
  - rewrite Hstrip. by apply urljoin_absolute.
Qed.

Lemma normalized_link_resolves_to_itself_witness :
  normalize_and_clean_url "https://example.org/c" "http://other.example/x/y?q"
  = Some "https://example.org/c".
Proof.
  apply (normalized_link_resolves_to_itself "../c/#top" "https://example.org/a/b").
  - vm_compute. reflexivity.
  - vm_compute. reflexivity.
  - vm_compute. reflexivity.
  - right. eexists. vm_compute. reflexivity.
Defined.

(** X3.  The host filter does not look at the case of the required
    substring: lowering it changes no answer. *)
Theorem host_filter_ignores_case url required_host_substring :
  is_url_valid_for_host url (Str.lower required_host_substring)
  = is_url_valid_for_host url required_host_substring.
Proof. unfold is_url_valid_for_host. by rewrite lower_idem. Qed.

(** ** The links of a page *)

Section Links.

Lemma extract_fold base host hrefs (acc : gset string) u :
  u ∈ fold_left
        (fun (valid_urls : gset string) href =>
           if Str.is_empty href || skipped_prefix href then valid_urls
           else
             match normalize_and_clean_url href base with
             | Some cleaned_url =>
                 if negb (Str.is_empty cleaned_url)
                    && is_url_valid_for_host cleaned_url host
                 then valid_urls ∪ {[cleaned_url]}
                 else valid_urls
             | None => valid_urls
             end)
        hrefs acc
  ↔ u ∈ acc ∨ ∃ href, href ∈ hrefs ∧ link_of base host href u.
Proof.
  revert acc. induction hrefs as [|h hrefs IH]; intros acc.
  - cbn [fold_left]. split; [by left|].
    intros [?|(href & []%elem_of_nil & _)]; done.
  - cbn [fold_left]. rewrite IH. clear IH.
    assert (∀ href, href ∈ h :: hrefs ↔ href = h ∨ href ∈ hrefs) as Hcons
      by (intros; apply elem_of_cons).
    destruct (Str.is_empty h) eqn:Eh.
    { apply is_empty_true in Eh. cbn [orb]. split.
      - intros [?|(href & Hin & Hl)]; [by left|].
        right. exists href. split; [apply Hcons; by right|done].
      - intros [?|(href & [->|Hin]%Hcons & Hl)]; [by left| |right; eauto].
        by destruct Hl as [? _]. }
    cbn [orb]. destruct (skipped_prefix h) eqn:Es.
    { split.
      - intros [?|(href & Hin & Hl)]; [by left|].
        right. exists href. split; [apply Hcons; by right|done].
      - intros [?|(href & [->|Hin]%Hcons & Hl)]; [by left| |right; eauto].
        destruct Hl as (_ & Hl & _). congruence. }
    destruct (normalize_and_clean_url h base) as [v|] eqn:En.
    2:{ split.
      - intros [?|(href & Hin & Hl)]; [by left|].
        right. exists href. split; [apply Hcons; by right|done].
      - intros [?|(href & [->|Hin]%Hcons & Hl)]; [by left| |right; eauto].
        destruct Hl as (_ & _ & Hl & _). congruence. }
    destruct (is_url_valid_for_host v host) eqn:Ev.
    + assert (Str.is_empty v = false) as ->.
      { destruct v; [|done]. by vm_compute in Ev. }
      cbn [negb andb]. rewrite elem_of_union, elem_of_singleton. split.
      * intros [[?| ->]|(href & Hin & Hl)]; [by left| |].
        -- right. exists h. split; [apply Hcons; by left|].
           by apply is_empty_false in Eh.
        -- right. exists href. split; [apply Hcons; by right|done].
      * intros [?|(href & [->|Hin]%Hcons & Hl)]; [by left; left| |right; eauto].
        destruct Hl as (_ & _ & Hl & _). left. right. congruence.
    + rewrite andb_false_r. split.
      * intros [?|(href & Hin & Hl)]; [by left|].
        right. exists href. split; [apply Hcons; by right|done].
      * intros [?|(href & [->|Hin]%Hcons & Hl)]; [by left| |right; eauto].
        destruct Hl as (_ & _ & Hl & Hv). congruence.
Qed.

End Links.

Lemma normalized_clean href base v :
  normalize_and_clean_url href base = Some v →
  Str.has "?" v = false ∧ Str.has "#" v = false.
Proof.
  intros (sch & nl & pa & Hs & Hn & Hok & ->)%normalized_parts.
  rewrite !has_app, (delims_query _ (nl_delims _ _ Hok)),
    (delims_fragment _ (nl_delims _ _ Hok)), (pa_query _ _ Hok),
    (pa_fragment _ _ Hok).
  by destruct (http_or_https _ Hs) as [-> | ->].
Qed.

(** X4.  [extract_valid_urls] returns exactly the URLs that some [href] of
    the page normalizes to and that pass [is_url_valid_for_host], the empty
    hrefs and those that start with [javascript:], [mailto:], [tel:] or
    ['#'] left out; the order of the anchors and their repetitions do not
    matter. *)
Theorem extracted_links_characterized soup base_url required_host_substring u :
  u ∈ extract_valid_urls soup base_url required_host_substring
  ↔ ∃ href,
      href ∈ soup_hrefs soup
      ∧ link_of base_url required_host_substring href u.
Proof.
  unfold extract_valid_urls. rewrite extract_fold. split.
  - intros [[]%not_elem_of_empty|H]; done.
  - by right.
Qed.

(** X5.  Every URL that [extract_valid_urls] returns is in scope and
    canonical: it passes [is_url_valid_for_host] for the required host, it
    starts with [http://] or [https://], and it has no query and no
    fragment. *)
Theorem extracted_links_are_canonical soup base_url required_host_substring u :
  u ∈ extract_valid_urls soup base_url required_host_substring →
  is_url_valid_for_host u required_host_substring = true
  ∧ (Str.startswith "http://" u = true ∨ Str.startswith "https://" u = true)
  ∧ Str.has "?" u = false
  ∧ Str.has "#" u = false.
Proof.
  unfold extract_valid_urls. rewrite extract_fold.
  intros [[]%not_elem_of_empty|(href & _ & _ & _ & Hn & Hv)].
  split; [done|].
  destruct (normalized_clean _ _ _ Hn) as [Hq Hf].
  split; [|done].
  destruct (normalized_parts _ _ _ Hn) as (sch & nl & pa & Hs & _ & _ & ->).
  destruct (http_or_https _ Hs) as [-> | ->]; [by left|by right].
Qed.

Lemma extracted_links_are_canonical_witness :
  is_url_valid_for_host "https://example.org/b" "example.org" = true
  ∧ (Str.startswith "http://" "https://example.org/b" = true
     ∨ Str.startswith "https://" "https://example.org/b" = true)
  ∧ Str.has "?" "https://example.org/b" = false
  ∧ Str.has "#" "https://example.org/b" = false.
Proof.
  apply (extracted_links_are_canonical
           (mkSoup "Hello" ["mailto:x@example.org"; "/b?x=1#top";
                            "https://elsewhere.test/"; "/logo.png"])
           "https://example.org/a" "example.org").
  vm_compute. reflexivity.
Defined.

(** ** The frontier file, in general *)

Section QueueFileFacts.
Import Str.

Lemma text_of_no_cr_lines queue :
  Forall one_line queue → has "013" (text_of queue) = false.
Proof.
  induction 1 as [|u q [_ Hu] _ IH]; [done|]. cbn [text_of].
  by rewrite has_app, Hu, has_cons, IH.
Qed.

Lemma lines_of_text_lines queue :
  Forall one_line queue → lines_of (text_of queue) = queue ++ [""].
Proof.
  intros Hq. unfold lines_of.
  rewrite universal_newlines_id by by apply text_of_no_cr_lines.
  induction Hq as [|u q [Hu _] _ IH]; [done|]. cbn [text_of].
  by rewrite split_app_sep, IH.
Qed.

Lemma existsb_lstrip q p s :
  existsb q s = false → existsb q (lstrip_p p s) = false.
Proof.
  induction s as [|c s IH]; [done|]. cbn [lstrip_p].
  destruct (p c); [|done]. cbn [existsb]. intros [_ H]%orb_false_elim. auto.
Qed.

Lemma existsb_rstrip q p s :
  existsb q s = false → existsb q (rstrip_p p s) = false.
Proof.
  destruct (rstrip_p_prefix p s) as (r & Hr & _). intros H.
  rewrite Hr in H. by apply existsb_app_false in H as [? _].
Qed.

Lemma has_strip c s : has c s = false → has c (strip s) = false.
Proof. intros H. by apply existsb_rstrip, existsb_lstrip. Qed.

Lemma split_pieces c s : Forall (fun piece => has c piece = false) (split c s).
Proof.
  induction s as [|a s IH]; [by repeat constructor|]. cbn [split].
  destruct (Ascii.eqb a c) eqn:E; [by constructor|].
  destruct (split c s) as [|h t].
  - constructor; [|done]. by rewrite has_cons, (Ascii.eqb_sym c a), E.
  - inversion IH as [|? ? Hh Ht]; subst. constructor; [|done].
    by rewrite has_cons, (Ascii.eqb_sym c a), E.
Qed.

Lemma universal_newlines_no_cr s : has "013" (universal_newlines s) = false.
Proof.
  assert (∀ n s, String.length s ≤ n → has "013" (universal_newlines s) = false)%nat
    as H; [|by apply (H (String.length s))].
  clear s. induction n as [|n IH]; intros s Hs.
  - destruct s; [done|]. simpl in Hs. lia.
  - destruct s as [|c s]; [done|]. cbn [universal_newlines]. simpl in Hs.
    destruct (Ascii.eqb c "013") eqn:E.
    + rewrite has_cons. cbn [orb Ascii.eqb Bool.eqb].
      destruct s as [|d s]; [done|].
      destruct (Ascii.eqb d "010") eqn:E'.
      * apply Ascii.eqb_eq in E'. subst d. apply IH. simpl in Hs. lia.
      * assert (match String d s with
                | String "010" s'' => universal_newlines s''
                | _ => universal_newlines (String d s)
                end = universal_newlines (String d s)) as ->.
        { destruct d as [[] [] [] [] [] [] [] []]; try done. }
        apply IH. lia.
    + rewrite has_cons, (Ascii.eqb_sym "013" c), E. apply IH. lia.
Qed.

Lemma load_entry fs u :
  u ∈ load_queue_from_file fs →
  ∃ line, u = strip line ∧ u ≠ "" ∧ has "010" line = false
          ∧ has "013" line = false.
Proof.
  unfold load_queue_from_file.
  destruct (crawl_queue_txt fs) as [| |text]; try by intros ?%elem_of_nil.
  intros (line & -> & Hin)%list_elem_of_fmap.
  apply list_elem_of_In, filter_In in Hin as [Hin Hne].
  apply list_elem_of_In in Hin.
  exists line. split; [done|]. split.
  { apply is_empty_false. by destruct (is_empty (strip line)). }
  unfold lines_of in Hin.
  pose proof (split_pieces "010" (universal_newlines text)) as Hp.
  rewrite Forall_forall in Hp. split; [by apply Hp|].
  pose proof (universal_newlines_no_cr text) as Hcr.
  clear Hp Hne. revert line Hin.
  generalize dependent (universal_newlines text). clear text.
  intros s. induction s as [|a s IH]; intros Hcr line Hin.
  - apply list_elem_of_singleton in Hin. by subst.
  - rewrite has_cons in Hcr. apply orb_false_elim in Hcr as [Ha Hs].
    cbn [split] in Hin. destruct (Ascii.eqb a "010").
    + apply elem_of_cons in Hin as [->|Hin]; [done|]. by apply IH.
    + destruct (split "010" s) as [|h t] eqn:E.
      * apply list_elem_of_singleton in Hin. subst. by rewrite has_cons, Ha.
      * apply elem_of_cons in Hin as [->|Hin].
        -- rewrite has_cons, Ha. apply IH; [done|]. apply list_elem_of_here.
        -- apply IH; [done|]. by apply list_elem_of_further.
Qed.

End QueueFileFacts.

Section QueueFileLaws.
Import Str.

Lemma load_save_lines fs queue :
  Forall one_line queue →
  load_queue_from_file (save_queue_to_file false queue fs)
  = List.map strip
      (List.filter (fun url => negb (is_empty (strip url))) queue).
Proof.
  intros HQ. unfold load_queue_from_file, save_queue_to_file.
  cbn [crawl_queue_txt].
  rewrite save_text, str_app_nil_l, lines_of_text_lines by done.
  by rewrite List.filter_app, List.map_app, app_nil_r.
Qed.

Lemma load_plain fs : Forall plain_entry (load_queue_from_file fs).
Proof.
  apply Forall_forall. intros u (line & -> & Hne & Hlf & Hcr)%load_entry.
  split; [done|]. split; [apply strip_idem|]. split; by apply has_strip.
Qed.

Lemma plain_kept queue :
  Forall plain_entry queue →
  List.map strip (List.filter (fun url => negb (is_empty (strip url))) queue)
  = queue.
Proof.
  induction 1 as [|u q (Hne & Hs & _) _ IH]; [done|].
  cbn [List.filter]. rewrite Hs.
  apply is_empty_false in Hne. rewrite Hne. cbn [negb List.map].
  by rewrite Hs, IH.
Qed.

End QueueFileLaws.

(** X6.  Whatever [crawl_queue.txt] holds, every entry that
    [load_queue_from_file] returns is non-empty, has no whitespace at
    either end and no line terminator; and a queue that was restored is
    given back unchanged by a checkpoint and a second restore. *)
Theorem restored_queue_is_plain_and_stable fs fs' :
  Forall plain_entry (load_queue_from_file fs)
  ∧ load_queue_from_file
      (save_queue_to_file false (load_queue_from_file fs) fs')
    = load_queue_from_file fs.
Proof.
  split; [apply load_plain|].
  rewrite load_save_lines.
  - apply plain_kept, load_plain.
  - eapply Forall_impl; [apply load_plain|]. by intros u (_ & _ & ? & ?).
Qed.

(** X7.  A checkpoint followed by a restore gives the queue with every
    entry stripped and the entries that are blank left out, in order,
    whatever the file held before, provided no entry contains a line
    terminator. *)
Theorem restore_after_checkpoint_strips_entries fs queue :
  Forall one_line queue →
  load_queue_from_file (save_queue_to_file false queue fs)
  = List.map Str.strip
      (List.filter (fun url => negb (Str.is_empty (Str.strip url))) queue).
Proof. apply load_save_lines. Qed.

Lemma restore_after_checkpoint_strips_entries_witness :
  load_queue_from_file
    (save_queue_to_file false
       [" https://example.org/a "; ""; "   "; "https://example.org/b"]
       (mkFS Absent (Content "stale") ∅))
  = List.map Str.strip
      (List.filter (fun url => negb (Str.is_empty (Str.strip url)))
         [" https://example.org/a "; ""; "   "; "https://example.org/b"]).
Proof.
  apply restore_after_checkpoint_strips_entries.
  repeat constructor.
Defined.

(** ** The index and the content files over a run *)

Section Storage.

Lemma write_appends flt content index url fs :
  let w := write_content_file flt content index url fs in
  index_csv (snd w)
  = (if fst w
     then append_row [str_of_int index; content_path index; url] (index_csv fs)
     else index_csv fs)
  ∧ crawl_queue_txt (snd w) = crawl_queue_txt fs
  ∧ (files (snd w) = files fs
     ∨ files (snd w) = <[content_path index := content]> (files fs)).
Proof.
  unfold write_content_file.
  destruct (url_exists_in_index url fs); [by auto|].
  destruct flt as [[] [] []]; cbn [makedirs_fails content_write_fails
    index_append_fails fst snd index_csv crawl_queue_txt files]; auto.
Qed.

Lemma step_storage w l w' :
  step w l w' →
  (∀ rows, index_csv (snd w) = Content rows →
     ∃ more, index_csv (snd w') = Content (rows ++ more)
             ∧ Forall (fun row => length row = 3%nat) more)
  ∧ (index_csv (snd w) = Unreadable → index_csv (snd w') = Unreadable)
  ∧ ∀ path, is_Some (files (snd w) !! path) → is_Some (files (snd w') !! path).
Proof.
  assert (∀ fs : FS,
    (∀ rows, index_csv fs = Content rows →
       ∃ more, index_csv fs = Content (rows ++ more)
               ∧ Forall (fun row => length row = 3%nat) more)
    ∧ (index_csv fs = Unreadable → index_csv fs = Unreadable)
    ∧ ∀ path, is_Some (files fs !! path) → is_Some (files fs !! path)) as Hsame.
  { intros fs. split; [|done]. intros rows ->. exists [].
    by rewrite app_nil_r. }
  destruct 1 as [c fs n|c fs wf|c fs|c fs flt ct ix url|c fs u Hu|c fs u Hu];
    cbn [snd]; try apply Hsame.
  - unfold save_queue_to_file. destruct wf; [apply Hsame|].
    cbn [index_csv files]. apply Hsame.
  - destruct (write_appends flt ct ix url fs) as (Hi & _ & Hf).
    cbv zeta in Hi, Hf. rewrite Hi. split; [|split].
    + intros rows Hrows. rewrite Hrows. destruct (fst _).
      * exists [[str_of_int ix; content_path ix; url]]. split; [done|].
        by repeat constructor.
      * exists []. by rewrite app_nil_r.
    + intros ->. by destruct (fst _).
    + intros path Hp. destruct Hf as [-> | ->]; [done|].
      destruct (decide (content_path ix = path)) as [<-|Hne].
      * rewrite lookup_insert_eq. eauto.
      * by rewrite lookup_insert_ne.
Qed.

End Storage.

(** X8.  Over any run the index is append-only and no content file is
    removed: the rows the index held at the start are still its first rows
    at the end, in order, every row added has three fields, and every path
    that held a content file still holds one. *)
Theorem index_is_append_only w tr w' rows :
  run w tr w' →
  index_csv (snd w) = Content rows →
  (∃ more,
     index_csv (snd w') = Content (rows ++ more)
     ∧ Forall (fun row => length row = 3%nat) more)
  ∧ ∀ path, is_Some (files (snd w) !! path) → is_Some (files (snd w') !! path).
Proof.
  intros Hrun. revert rows.
  induction Hrun as [w|w1 w2 w3 l tr Hrun IH Hstep]; intros rows Hrows.
  - split; [|done]. exists []. by rewrite app_nil_r.
  - destruct (IH rows Hrows) as [(more & Hm & Hlen) Hfiles].
    destruct (step_storage _ _ _ Hstep) as (Hi & _ & Hf).
    destruct (Hi _ Hm) as (more' & Hm' & Hlen'). split.
    + exists (more ++ more'). rewrite app_assoc. split; [done|].
      by apply Forall_app.
    + intros path Hp. by apply Hf, Hfiles.
Qed.

Lemma index_is_append_only_witness :
  let fs :=
    mkFS (Content [["index"; "path"; "url"]]) Absent
      {["files/7.txt" := "old"]} in
  let c := mkCrawler "example.org" 1 10 [] ∅ in
  let fs' :=
    snd (write_content_file no_faults "Hello" 1 "https://example.org/a" fs) in
  (∃ more,
     index_csv fs' = Content ([["index"; "path"; "url"]] ++ more)
     ∧ Forall (fun row => length row = 3%nat) more)
  ∧ ∀ path, is_Some (files fs !! path) → is_Some (files fs' !! path).
Proof.
  intros fs c fs'.
  apply (index_is_append_only (c, fs) ([] ++ option_list None) (c, fs')).
  - eapply run_step; [apply run_nil|].
    apply (step_append c fs no_faults "Hello" 1 "https://example.org/a").
  - reflexivity.
Defined.

(** ** An index that has its header row, continued *)







(** X13.  Index reads fail open: when [read_csv] raises on [index.csv]
    (the file is missing, empty or unreadable, or one of its rows has more
    fields than the header and the first row), [get_max_index] is 0,
    [url_exists_in_index] is [False] for every URL, a crawler starts at
    index 1, and [write_content_file] is not held back by the re-check. *)
Theorem index_read_failure_fails_open fs e :
  read_csv (index_csv fs) = Raise e →
  get_max_index fs = 0%Z
  ∧ (∀ url, url_exists_in_index url fs = false)
  ∧ (∀ host seeds mw, current_index (Crawler_init fs host seeds mw) = 1%Z)
  ∧ ∀ content index url,
      fst (write_content_file no_faults content index url fs) = true.
Proof.
  intros H.
  assert (get_max_index fs = 0%Z ∧ ∀ url, url_exists_in_index url fs = false)
    as [Hmax Hurl].
  { unfold get_max_index, url_exists_in_index. rewrite H.
    split; [|intros url]; destruct (negb _); by destruct e. }
  split; [done|]. split; [done|]. split.
  - intros host seeds mw. by rewrite first_index, Hmax.
  - intros content index url. unfold write_content_file. by rewrite Hurl.
Qed.

Lemma index_read_failure_fails_open_witness :
  let fs :=
    mkFS (Content [["index"; "path"; "url"];
                   ["1"; "files/1.txt"; "https://example.org/a"];
                   ["2"; "files/2.txt"; "https://example.org/b"; "extra"]])
      Absent ∅ in
  get_max_index fs = 0%Z
  ∧ (∀ url, url_exists_in_index url fs = false)
  ∧ (∀ host seeds mw, current_index (Crawler_init fs host seeds mw) = 1%Z)
  ∧ ∀ content index url,
      fst (write_content_file no_faults content index url fs) = true.
Proof.
  intros fs. apply (index_read_failure_fails_open fs ParserError).
  vm_compute. reflexivity.
Defined.

Lemma recorded_stays_skipped_witness :
  let u := "https://example.org/a" in
  let fs := mkFS (index_of_records [mkIndexRecord 1 "files/1.txt" u]) Absent ∅ in
  let c := mkCrawler "example.org" 2 10 [] ∅ in
  let fs' :=
    snd (write_content_file no_faults "World" 2 "https://example.org/b" fs) in
  (u ∉ [] ++ option_list None)
  ∧ url_exists_in_index u fs' = true
  ∧ ∀ c', snd (try_enqueue fs' c' u) = false.
Proof.
  intros u fs c fs'.
  apply (recorded_stays_skipped (c, fs) ([] ++ option_list None) (c, fs')
           [mkIndexRecord 1 "files/1.txt" u] u).
  - reflexivity.
  - vm_compute. reflexivity.
  - eapply run_step; [apply run_nil|].
    apply (step_append c fs no_faults "World" 2 "https://example.org/b").
Defined.

Lemma index_without_header_row_witness :
  let w :=
    write_content_file no_faults "Hello" 1 "https://example.org/a"
      (mkFS Absent Absent ∅) in
  fst w = true
  ∧ index_csv (snd w)
    = Content [[str_of_int 1; content_path 1; "https://example.org/a"]]
  ∧ ∀ fs body,
      index_csv fs
      = Content ([str_of_int 1; content_path 1; "https://example.org/a"]
                 :: body) →
      get_max_index fs = 0%Z ∧ ∀ u, url_exists_in_index u fs = false.
Proof.
  apply (index_without_header_row "Hello" 1 "https://example.org/a" Absent ∅);
    discriminate.
Defined.

(** ** Seeding, dequeuing and processing *)

Section Seeding.

Lemma seeding_fold fs host seeds c :
  let body := fun c url =>
    if is_url_valid_for_host url (host_includes c)
       && negb (url_exists_in_index url fs)
    then if bool_decide (url ∉ urls_in_session c) then enqueue url c else c
    else c in
  host_includes c = host →
  (∀ u, u ∈ urls_in_session c ↔ u ∈ queue c) →
  NoDup (queue c) →
  let c' := fold_left body seeds c in
  (∀ u, u ∈ urls_in_session c' ↔ u ∈ queue c')
  ∧ NoDup (queue c')
  ∧ (∃ added, queue c' = queue c ++ added ∧ added `sublist_of` seeds)
  ∧ ∀ u, u ∈ queue c' ↔ u ∈ queue c ∨ (u ∈ seeds ∧ seed_passes fs host u).
Proof.
  intros body. revert c.
  induction seeds as [|s seeds IH]; intros c Hh Hs Hnd; cbn [fold_left].
  - split; [done|]. split; [done|]. split.
    + exists []. by rewrite app_nil_r.
    + intros u. split; [by left|]. by intros [?|[[]%elem_of_nil _]].
  - assert (host_includes (body c s) = host) as Hh'.
    { unfold body. destruct (_ && _); [|done]. by case_bool_decide. }
    assert (∀ u, u ∈ queue (body c s)
                 ↔ u ∈ queue c ∨ (u = s ∧ seed_passes fs host u)) as Hq.
    { intros u. unfold body, seed_passes. rewrite Hh.
      destruct (is_url_valid_for_host s host) eqn:Ev;
        destruct (url_exists_in_index s fs) eqn:Ei; cbn [andb negb];
        try (split; [by left|]; intros [?|[-> [? ?]]]; [done|congruence]).
      case_bool_decide as Hin.
      - unfold enqueue. cbn [queue].
        rewrite elem_of_app, list_elem_of_singleton. split.
        + intros [?| ->]; [by left|by right].
        + intros [?|[-> _]]; [by left|by right].
      - split; [by left|]. intros [?|[-> _]]; [done|].
        apply Hs. by destruct (decide (s ∈ urls_in_session c)). }
    assert (∀ u, u ∈ urls_in_session (body c s) ↔ u ∈ queue (body c s)) as Hs'.
    { intros u. unfold body. destruct (_ && _); [|done].
      case_bool_decide; [|done]. unfold enqueue. cbn [queue urls_in_session].
      rewrite elem_of_union, elem_of_singleton, elem_of_app,
        list_elem_of_singleton, Hs. done. }
    assert (NoDup (queue (body c s))) as Hnd'.
    { unfold body. destruct (_ && _); [|done]. case_bool_decide as Hin; [|done].
      unfold enqueue. cbn [queue]. apply NoDup_app. split; [done|].
      split; [|apply NoDup_singleton].
      intros v Hv ->%list_elem_of_singleton. by apply Hin, Hs. }
    assert (∃ a, queue (body c s) = queue c ++ a ∧ a `sublist_of` [s]) as
      (a & Ha & Hsub).
    { unfold body. destruct (_ && _).
      - case_bool_decide.
        + exists [s]. by split.
        + exists []. rewrite app_nil_r. split; [done|]. apply sublist_nil_l.
      - exists []. rewrite app_nil_r. split; [done|]. apply sublist_nil_l. }
    destruct (IH (body c s) Hh' Hs' Hnd') as (H1 & H2 & (added & H3 & H3') & H4).
    split; [done|]. split; [done|]. split.
    + exists (a ++ added). rewrite H3, Ha, <- app_assoc. split; [done|].
      by apply (sublist_app a [s] added seeds).
    + intros u. rewrite H4, Hq, elem_of_cons. tauto.
Qed.

End Seeding.

(** X14.  [Crawler.__init__] seeds only an empty restored queue.  When
    [crawl_queue.txt] gives a queue, the seeds are ignored and the queue is
    the restored one.  Otherwise the queue holds exactly the seeds that pass
    [is_url_valid_for_host] and are not in the index, each once, in the
    order of the seed list.  Either way the session set holds exactly the
    queued URLs. *)
Theorem seeding_selects_valid_unindexed_seeds fs host seeds mw :
  let c := Crawler_init fs host seeds mw in
  (load_queue_from_file fs ≠ [] → queue c = load_queue_from_file fs)
  ∧ (load_queue_from_file fs = [] →
     NoDup (queue c)
     ∧ queue c `sublist_of` seeds
     ∧ ∀ u, u ∈ queue c ↔ u ∈ seeds ∧ seed_passes fs host u)
  ∧ ∀ u, u ∈ urls_in_session c ↔ u ∈ queue c.
Proof.
  unfold Crawler_init, _initialize_queue. cbn [queue].
  destruct (load_queue_from_file fs) as [|q0 q] eqn:E.
  - set (c0 := mkCrawler host (get_max_index fs + 1) mw [] (list_to_set [])).
    destruct (seeding_fold fs host seeds c0) as (H1 & H2 & (a & H3 & H3') & H4);
      [done| |apply NoDup_nil_2|].
    { intros u. unfold c0. cbn [queue urls_in_session].
      by rewrite elem_of_list_to_set. }
    split; [done|]. split; [|done]. intros _.
    split; [done|]. split.
    + rewrite H3. by cbn [c0 queue app].
    + intros u. rewrite H4. cbn [c0 queue].
      split; [by intros [[]%elem_of_nil|?]|by right].
  - split; [done|]. split; [done|].
    intros u. cbn [queue urls_in_session]. by rewrite elem_of_list_to_set.
Qed.

Lemma seeding_selects_valid_unindexed_seeds_witness :
  let fs :=
    mkFS (index_of_records
            [mkIndexRecord 1 "files/1.txt" "https://example.org/done"])
      Absent ∅ in
  let seeds :=
    ["https://example.org/a"; "https://example.org/done";
     "https://elsewhere.test/"; "https://example.org/a";
     "https://example.org/logo.png"; "https://example.org/b"] in
  let c := Crawler_init fs "example.org" seeds 10 in
  NoDup (queue c)
  ∧ queue c `sublist_of` seeds
  ∧ ∀ u, u ∈ queue c ↔ u ∈ seeds ∧ seed_passes fs "example.org" u.
Proof.
  intros fs seeds c.
  apply (seeding_selects_valid_unindexed_seeds fs "example.org" seeds 10).
  reflexivity.
Defined.



Section Processing.

Lemma enqueue_fold fs urls c :
  let c' := fold_left (fun c new_url => fst (try_enqueue fs c new_url)) urls c in
  host_includes c' = host_includes c
  ∧ current_index c' = current_index c
  ∧ max_workers c' = max_workers c
  ∧ ∃ new,
      queue c' = queue c ++ new
      ∧ new `sublist_of` urls
      ∧ NoDup new
      ∧ (∀ u, u ∈ urls_in_session c' ↔ u ∈ urls_in_session c ∨ u ∈ new)
      ∧ ∀ u, u ∈ new →
          (u ∉ urls_in_session c) ∧ url_exists_in_index u fs = false.
Proof.
  revert c. induction urls as [|x urls IH]; intros c; cbn [fold_left].
  - do 3 (split; [done|]). exists []. rewrite app_nil_r.
    split; [done|]. split; [done|]. split; [apply NoDup_nil_2|]. split.
    + intros u. split; [by left|]. by intros [?|[]%elem_of_nil].
    + by intros u []%elem_of_nil.
  - destruct (IH (fst (try_enqueue fs c x)))
      as (H1 & H2 & H3 & new & Hq & Hsub & Hnd & Hs & Hnew).
    destruct (snd (try_enqueue fs c x)) eqn:E.
    + pose proof E as [Hx Hi]%try_enqueue_spec.
      rewrite (try_enqueue_enqueued _ _ _ E) in *.
      cbn [enqueue host_includes current_index max_workers queue
           urls_in_session] in *.
      do 3 (split; [done|]). exists (x :: new).
      split; [by rewrite Hq, <- app_assoc|].
      split; [by apply sublist_skip|]. split.
      * apply NoDup_cons. split; [|done]. intros Hin.
        destruct (Hnew x Hin) as [Hx' _]. apply Hx'.
        apply elem_of_union_r. by apply elem_of_singleton.
      * split.
        -- intros u. rewrite Hs, elem_of_union, elem_of_singleton, elem_of_cons.
           tauto.
        -- intros u [->|Hin]%elem_of_cons; [done|].
           destruct (Hnew u Hin) as [Hu ?]. split; [|done].
           intros Hc. apply Hu. by apply elem_of_union_l.
    + rewrite (try_enqueue_skipped _ _ _ E) in *.
      do 3 (split; [done|]). exists new.
      split; [done|]. split; [by apply sublist_cons|]. done.
Qed.

End Processing.

(** X16.  [_process_url] does nothing at all when the URL is already in
    the index or the page could not be fetched.  Otherwise it takes one
    index: the counter goes up by one whether or not the write succeeds,
    the files are what [write_content_file] leaves for the text of the page
    under the old counter, and [host_includes] and [max_workers] stay. *)
Theorem process_url_takes_one_index flt page url c fs :
  let w' := _process_url flt page url (c, fs) in
  (url_exists_in_index url fs = true ∨ page = None → w' = (c, fs))
  ∧ (∀ soup,
       url_exists_in_index url fs = false → page = Some soup →
       current_index (fst w') = (current_index c + 1)%Z
       ∧ snd w'
         = snd (write_content_file flt (soup_text soup) (current_index c)
                  url fs))
  ∧ host_includes (fst w') = host_includes c
  ∧ max_workers (fst w') = max_workers c.
Proof.
  unfold _process_url.
  destruct (url_exists_in_index url fs) eqn:Ei.
  { split; [done|]. split; [|done]. by intros soup [=]. }
  destruct page as [soup|].
  2:{ split; [done|]. split; [|done]. by intros soup _ [=]. }
  cbn [take_index]. cbv zeta.
  destruct (write_content_file _ _ _ _ _) as [written fs'] eqn:Ew.
  split; [by intros [[=]|[=]]|].
  destruct written.
  - set (c1 := mkCrawler _ _ _ _ _).
    destruct (enqueue_fold fs'
                (elements (extract_valid_urls soup url (host_includes c1))) c1)
      as (H1 & H2 & H3 & _).
    cbn [fst snd]. cbv zeta in H1, H2, H3. rewrite H1, H2, H3.
    split; [|done]. intros soup' _ [= <-]. by rewrite Ew.
  - cbn [fst snd host_includes current_index max_workers].
    split; [|done]. intros soup' _ [= <-]. by rewrite Ew.
Qed.

Lemma process_url_takes_one_index_witness :
  let c := mkCrawler "example.org" 4 10 [] {["https://example.org/a"]} in
  let fs := mkFS Absent Absent ∅ in
  let w' :=
    _process_url (mkFaults false true false) (Some (mkSoup "Hello" ["/b"]))
      "https://example.org/a" (c, fs) in
  current_index (fst w') = 5%Z
  ∧ snd w'
    = snd (write_content_file (mkFaults false true false) "Hello" 4
             "https://example.org/a" fs).
Proof.
  intros c fs w'.
  destruct (process_url_takes_one_index (mkFaults false true false)
              (Some (mkSoup "Hello" ["/b"])) "https://example.org/a" c fs)
    as (_ & H & _).
  apply (H (mkSoup "Hello" ["/b"])); reflexivity.
Defined.

(** X17.  What [_process_url] appends to the queue: the queue grows at its
    tail only, by URLs that are pairwise distinct, were not in the session
    set, are not in the index after the write, come from
    [extract_valid_urls] for the page and so pass [is_url_valid_for_host]
    for [host_includes]; the session set grows by exactly these URLs. *)
Theorem process_url_enqueues_new_links_in_scope flt page url c fs :
  let w' := _process_url flt page url (c, fs) in
  ∃ new,
    queue (fst w') = queue c ++ new
    ∧ NoDup new
    ∧ (∀ u, u ∈ urls_in_session (fst w') ↔ u ∈ urls_in_session c ∨ u ∈ new)
    ∧ ∀ u, u ∈ new →
        (u ∉ urls_in_session c)
        ∧ url_exists_in_index u (snd w') = false
        ∧ is_url_valid_for_host u (host_includes c) = true
        ∧ ∃ soup,
            page = Some soup
            ∧ u ∈ extract_valid_urls soup url (host_includes c).
Proof.
  assert (∃ new : list string,
    queue c = queue c ++ new ∧ NoDup new
    ∧ (∀ u, u ∈ urls_in_session c ↔ u ∈ urls_in_session c ∨ u ∈ new)
    ∧ ∀ u, u ∈ new →
        (u ∉ urls_in_session c) ∧ url_exists_in_index u fs = false
        ∧ is_url_valid_for_host u (host_includes c) = true
        ∧ ∃ soup, page = Some soup
                  ∧ u ∈ extract_valid_urls soup url (host_includes c)) as Hnone.
  { exists []. rewrite app_nil_r. split; [done|]. split; [apply NoDup_nil_2|].
    split; [|by intros u []%elem_of_nil].
    intros u. split; [by left|]. by intros [?|[]%elem_of_nil]. }
  unfold _process_url.
  destruct (url_exists_in_index url fs); [exact Hnone|].
  destruct page as [soup|]; [|exact Hnone].
  cbn [take_index]. cbv zeta.
  destruct (write_content_file _ _ _ _ _) as [written fs'] eqn:Ew.
  destruct written.
  - set (c1 := mkCrawler _ _ _ _ _).
    destruct (enqueue_fold fs'
                (elements (extract_valid_urls soup url (host_includes c1))) c1)
      as (_ & _ & _ & new & Hq & Hsub & Hnd & Hs & Hnew).
    cbn [fst snd]. exists new. split; [exact Hq|]. split; [done|].
    split; [exact Hs|]. intros u Hu.
    destruct (Hnew u Hu) as [Hu1 Hu2]. split; [exact Hu1|]. split; [done|].
    assert (u ∈ extract_valid_urls soup url (host_includes c)) as Hin.
    { apply elem_of_elements. by apply (sublist_subseteq _ _ Hsub). }
    split; [|by exists soup].
    unfold extract_valid_urls in Hin. apply extract_fold in Hin.
    destruct Hin as [[]%not_elem_of_empty|(href & _ & _ & _ & _ & Hv)].
    exact Hv.
  - cbn [fst snd]. destruct Hnone as (new & H1 & H2 & H3 & H4).
    exists []. rewrite app_nil_r. split; [done|]. split; [apply NoDup_nil_2|].
    split; [|by intros u []%elem_of_nil].
    intros u. split; [by left|]. by intros [?|[]%elem_of_nil].
Qed.

Lemma process_url_enqueues_new_links_in_scope_witness :
  let c := mkCrawler "example.org" 1 10 [] {["https://example.org/"]} in
  let fs := mkFS (index_of_records []) Absent ∅ in
  let page :=
    Some (mkSoup "Hello" ["/a"; "/a#top"; "https://elsewhere.test/"; "/"]) in
  let w' := _process_url no_faults page "https://example.org/" (c, fs) in
  ∃ new,
    queue (fst w') = queue c ++ new
    ∧ NoDup new
    ∧ (∀ u, u ∈ urls_in_session (fst w') ↔ u ∈ urls_in_session c ∨ u ∈ new)
    ∧ ∀ u, u ∈ new →
        (u ∉ urls_in_session c)
        ∧ url_exists_in_index u (snd w') = false
        ∧ is_url_valid_for_host u (host_includes c) = true
        ∧ ∃ soup,
            page = Some soup
            ∧ u ∈ extract_valid_urls soup "https://example.org/"
                    (host_includes c).
Proof.
  intros c fs page w'.
  apply (process_url_enqueues_new_links_in_scope no_faults page
           "https://example.org/" c fs).
Defined.

Section Completeness.

Lemma enqueue_fold_complete fs urls c u :
  u ∈ urls → url_exists_in_index u fs = false →
  u ∈ urls_in_session
        (fold_left (fun c new_url => fst (try_enqueue fs c new_url)) urls c).
Proof.
  assert (∀ urls c v, v ∈ urls_in_session c →
            v ∈ urls_in_session
                  (fold_left (fun c new_url => fst (try_enqueue fs c new_url))
                     urls c)) as Hkeep.
  { clear. intros urls c v Hv.
    destruct (enqueue_fold fs urls c) as (_ & _ & _ & new & _ & _ & _ & Hs & _).
    apply Hs. by left. }
  revert c. induction urls as [|x urls IH]; intros c Hin Hi.
  - by apply elem_of_nil in Hin.
  - cbn [fold_left]. apply elem_of_cons in Hin as [->|Hin]; [|by apply IH].
    apply Hkeep. unfold try_enqueue. rewrite Hi. cbn [negb].
    rewrite andb_true_r. case_bool_decide as Hx; cbn [fst].
    + unfold enqueue. cbn [urls_in_session].
      apply elem_of_union_r. by apply elem_of_singleton.
    + by destruct (decide (x ∈ urls_in_session c)).
Qed.

Lemma process_url_stored flt soup url c fs :
  url_exists_in_index url fs = false →
  fst (write_content_file flt (soup_text soup) (current_index c) url fs)
  = true →
  let fs' :=
    snd (write_content_file flt (soup_text soup) (current_index c) url fs) in
  _process_url flt (Some soup) url (c, fs)
  = (fold_left (fun c new_url => fst (try_enqueue fs' c new_url))
       (elements (extract_valid_urls soup url (host_includes c)))
       (snd (take_index c)),
     fs').
Proof.
  intros Hi Hw. unfold _process_url. rewrite Hi.
  cbn [take_index snd]. cbv zeta.
  destruct (write_content_file _ _ _ _ _) as [written fs']. cbn [fst] in Hw.
  by subst written.
Qed.

End Completeness.

(** X18.  When the page of a URL is stored, no link of it is lost: every
    URL of [extract_valid_urls] that is not in the index is in the session
    set afterwards, so it was queued before or is queued now. *)
Theorem process_url_keeps_every_new_link flt soup url c fs u :
  url_exists_in_index url fs = false →
  fst (write_content_file flt (soup_text soup) (current_index c) url fs)
  = true →
  let w' := _process_url flt (Some soup) url (c, fs) in
  u ∈ extract_valid_urls soup url (host_includes c) →
  url_exists_in_index u (snd w') = false →
  u ∈ urls_in_session (fst w')
  ∧ (u ∈ urls_in_session c ∨ u ∈ queue (fst w')).
Proof.
  intros Hi Hw w'. unfold w'.
  rewrite (process_url_stored flt soup url c fs Hi Hw). cbn [fst snd].
  intros Hu Hiu.
  set (fs' := snd (write_content_file _ _ _ _ _)) in *.
  set (urls := elements _).
  assert (u ∈ urls) as Hin by by apply elem_of_elements.
  pose proof (enqueue_fold_complete fs' urls (snd (take_index c)) u Hin Hiu)
    as Hs.
  split; [exact Hs|].
  destruct (enqueue_fold fs' urls (snd (take_index c)))
    as (_ & _ & _ & added & Hq & _ & _ & Hs' & _).
  destruct (proj1 (Hs' u) Hs) as [Hold|Hadded]; [by left|]. right.
  rewrite Hq. apply elem_of_app. by right.
Qed.

Lemma process_url_keeps_every_new_link_witness :
  let c := mkCrawler "example.org" 1 10 [] {["https://example.org/"]} in
  let fs := mkFS (index_of_records []) Absent ∅ in
  let soup := mkSoup "Hello" ["/a"; "/a#top"; "https://elsewhere.test/"] in
  let w' := _process_url no_faults (Some soup) "https://example.org/" (c, fs) in
  "https://example.org/a" ∈ urls_in_session (fst w')
  ∧ ("https://example.org/a" ∈ urls_in_session c
     ∨ "https://example.org/a" ∈ queue (fst w')).
Proof.
  intros c fs soup w'.
  apply (process_url_keeps_every_new_link no_faults soup
           "https://example.org/" c fs "https://example.org/a");
    vm_compute; reflexivity.
Defined.

Section Counter.

Lemma step_configuration w l w' :
  step w l w' →
  host_includes (fst w') = host_includes (fst w)
  ∧ max_workers (fst w') = max_workers (fst w)
  ∧ (current_index (fst w) ≤ current_index (fst w'))%Z.
Proof.
  destruct 1 as [c fs n|c fs wf|c fs|c fs flt ct ix url|c fs u Hu|c fs u Hu];
    cbn [fst]; try done.
  - cbn [take_index snd host_includes max_workers current_index].
    split; [done|]. split; [done|]. lia.
  - by rewrite try_enqueue_enqueued.
  - by rewrite try_enqueue_skipped.
Qed.

End Counter.

(** X19.  A run never changes [host_includes] or [max_workers], and the
    index counter never goes down. *)
Theorem run_keeps_configuration w tr w' :
  run w tr w' →
  host_includes (fst w') = host_includes (fst w)
  ∧ max_workers (fst w') = max_workers (fst w)
  ∧ (current_index (fst w) ≤ current_index (fst w'))%Z.
Proof.
  induction 1 as [w|w1 w2 w3 l tr Hrun (H1 & H2 & H3) Hstep].
  - split; [done|]. split; [done|]. lia.
  - destruct (step_configuration _ _ _ Hstep) as (H1' & H2' & H3').
    split; [congruence|]. split; [congruence|]. lia.
Qed.

Lemma run_keeps_configuration_witness :
  let c := mkCrawler "example.org" 1 10 ["https://example.org/"] ∅ in
  let fs := mkFS Absent Absent ∅ in
  let w' := (snd (take_index (snd (dequeue 0 c))), fs) in
  host_includes (fst w') = host_includes c
  ∧ max_workers (fst w') = max_workers c
  ∧ (current_index c ≤ current_index (fst w'))%Z.
Proof.
  intros c fs w'.
  apply (run_keeps_configuration (c, fs)
           (([] ++ option_list None) ++ option_list None) w').
  eapply run_step.
  - eapply run_step; [apply run_nil|apply (step_dequeue c fs 0)].
  - apply (step_take_index (snd (dequeue 0 c)) fs).
Defined.

(** ** Content files *)

Section ContentPath.

Lemma str_app_inv_tail (s s' t : string) : s +:+ t = s' +:+ t → s = s'.
Proof.
  assert (∀ a b : string,
            String.length (a +:+ b) = (String.length a + String.length b)%nat)
    as Hlen by apply str_length_app.
  revert s'. induction s as [|c s IH]; intros s' H.
  - destruct s' as [|c' s']; [done|]. apply (f_equal String.length) in H.
    rewrite str_app_nil_l, Hlen in H. simpl in H. lia.
  - destruct s' as [|c' s'].
    + apply (f_equal String.length) in H.
      rewrite str_app_nil_l, Hlen in H. simpl in H. lia.
    + rewrite !str_app_cons in H. injection H as -> H. f_equal. by apply IH.
Qed.

Lemma str_of_int_inj i j : str_of_int i = str_of_int j → i = j.
Proof.
  intros H. apply (f_equal to_numeric) in H.
  rewrite !to_numeric_str in H. by injection H.
Qed.

Lemma content_path_inj i j : content_path i = content_path j → i = j.
Proof.
  unfold content_path. intros H.
  assert (str_of_int i +:+ ".txt" = str_of_int j +:+ ".txt") as H'.
  { by injection H. }
  by apply str_of_int_inj, (str_app_inv_tail _ _ ".txt").
Qed.

End ContentPath.

(** X20.  Content files of different indices never collide: the path
    [files/<index>.txt] determines the index, a write that goes through
    puts the content under the path of its index, and it leaves the
    content file of every other index as it was. *)
Theorem content_files_do_not_collide content index url fs j :
  url_exists_in_index url fs = false →
  let fs' := snd (write_content_file no_faults content index url fs) in
  files fs' !! content_path index = Some content
  ∧ (j ≠ index → files fs' !! content_path j = files fs !! content_path j)
  ∧ (content_path j = content_path index → j = index).
Proof.
  intros Hi. unfold write_content_file. rewrite Hi.
  cbn [no_faults makedirs_fails content_write_fails index_append_fails snd
       files].
  split; [apply lookup_insert_eq|]. split; [|apply content_path_inj].
  intros Hne. apply lookup_insert_ne. intros H. by apply Hne, content_path_inj.
Qed.

Lemma content_files_do_not_collide_witness :
  let fs := mkFS Absent Absent {[content_path 1 := "first"]} in
  let fs' :=
    snd (write_content_file no_faults "second" 11 "https://example.org/b" fs) in
  files fs' !! content_path 11 = Some "second"
  ∧ (1%Z ≠ 11%Z → files fs' !! content_path 1 = files fs !! content_path 1)
  ∧ (content_path 1 = content_path 11 → 1%Z = 11%Z).
Proof.
  intros fs.
  apply (content_files_do_not_collide "second" 11 "https://example.org/b" fs 1).
  vm_compute. reflexivity.
Defined.

(** ** The text of a page *)

Section Text.
Import Str.

Lemma line_pieces_step c s :
  line_pieces (String c s)
  = if is_line_boundary c then
      "" :: match s with
            | String "010" s'' =>
                if Ascii.eqb c "013" then line_pieces s'' else line_pieces s
            | _ => line_pieces s
            end
    else match line_pieces s with
         | h :: t => String c h :: t
         | [] => [String c ""]
         end.
Proof. reflexivity. Qed.

Lemma line_pieces_clean s :
  Forall (fun piece => existsb is_line_boundary piece = false) (line_pieces s).
Proof.
  assert (∀ n s, (String.length s ≤ n)%nat →
            Forall (fun piece => existsb is_line_boundary piece = false)
              (line_pieces s)) as H; [|by apply (H (String.length s))].
  clear s. induction n as [|n IH]; intros s Hs.
  - destruct s; [by repeat constructor|]. simpl in Hs. lia.
  - destruct s as [|c s]; [by repeat constructor|]. simpl in Hs.
    rewrite line_pieces_step. destruct (is_line_boundary c) eqn:Ec.
    + constructor; [done|].
      destruct s as [|d s]; [by repeat constructor|].
      destruct (Ascii.eqb d "010") eqn:Ed.
      * apply Ascii.eqb_eq in Ed. subst d.
        destruct (Ascii.eqb c "013"); apply IH; simpl in *; lia.
      * assert (match String d s with
                | String "010" s'' =>
                    if Ascii.eqb c "013" then line_pieces s''
                    else line_pieces (String d s)
                | _ => line_pieces (String d s)
                end = line_pieces (String d s)) as ->.
        { destruct d as [[] [] [] [] [] [] [] []]; try done. }
        apply IH. lia.
    + pose proof (IH s ltac:(lia)) as Hp.
      destruct (line_pieces s) as [|h t].
      * constructor; [|done]. cbn [existsb]. by rewrite Ec.
      * inversion Hp as [|? ? Hh Ht]; subst. constructor; [|done].
        cbn [existsb]. by rewrite Ec, Hh.
Qed.

Lemma drop_last_empty_sub l : drop_last_empty l ⊆ l.
Proof.
  induction l as [|x l IH]; [done|]. cbn [drop_last_empty].
  destruct x as [|c x].
  - destruct l as [|y l]; [apply list_subseteq_nil|].
    intros z [->|Hz]%elem_of_cons; [apply list_elem_of_here|].
    apply list_elem_of_further. by apply IH.
  - intros z [->|Hz]%elem_of_cons; [apply list_elem_of_here|].
    apply list_elem_of_further. by apply IH.
Qed.

Lemma splitlines_clean s line :
  line ∈ splitlines s → existsb is_line_boundary line = false.
Proof.
  intros Hin%drop_last_empty_sub.
  pose proof (line_pieces_clean s) as H. rewrite Forall_forall in H. auto.
Qed.

Lemma split_double_space_step c s :
  split_double_space (String c s)
  = match s with
    | String d s'' =>
        if Ascii.eqb c " " && Ascii.eqb d " " then "" :: split_double_space s''
        else match split_double_space s with
             | h :: t => String c h :: t
             | [] => [String c ""]
             end
    | "" => [String c ""]
    end.
Proof. reflexivity. Qed.

Lemma split_double_space_head s :
  ∃ h t,
    split_double_space s = h :: t
    ∧ (startswith " " h = true → startswith " " s = true).
Proof.
  destruct s as [|c s]; [by exists "", []|].
  rewrite split_double_space_step. destruct s as [|d s].
  - by exists (String c ""), [].
  - destruct (Ascii.eqb c " " && Ascii.eqb d " ").
    + by exists "", (split_double_space s).
    + destruct (split_double_space (String d s)) as [|h t].
      * by exists (String c ""), [].
      * by exists (String c h), t.
Qed.

Lemma contains_cons sub c s :
  contains sub (String c s) = startswith sub (String c s) || contains sub s.
Proof. reflexivity. Qed.

Lemma split_double_space_pieces q s :
  existsb q s = false →
  Forall (fun piece => existsb q piece = false) (split_double_space s).
Proof.
  assert (∀ n s, (String.length s ≤ n)%nat → existsb q s = false →
            Forall (fun piece => existsb q piece = false)
              (split_double_space s)) as H;
    [|by apply (H (String.length s))].
  clear s. induction n as [|n IH]; intros s Hs Hq.
  - destruct s; [by repeat constructor|]. simpl in Hs. lia.
  - destruct s as [|c s]; [by repeat constructor|]. simpl in Hs.
    cbn [existsb] in Hq. apply orb_false_elim in Hq as [Hc Hq].
    rewrite split_double_space_step. destruct s as [|d s].
    + constructor; [|done]. cbn [existsb]. by rewrite Hc.
    + destruct (Ascii.eqb c " " && Ascii.eqb d " ").
      * constructor; [done|]. cbn [existsb] in Hq.
        apply orb_false_elim in Hq as [_ Hq]. apply IH; [simpl in *; lia|done].
      * pose proof (IH (String d s) ltac:(lia) Hq) as Hp.
        destruct (split_double_space (String d s)) as [|h t].
        -- constructor; [|done]. cbn [existsb]. by rewrite Hc.
        -- inversion Hp as [|? ? Hh Ht]; subst. constructor; [|done].
           cbn [existsb]. by rewrite Hc, Hh.
Qed.

Lemma split_double_space_single s :
  Forall (fun piece => contains "  " piece = false) (split_double_space s).
Proof.
  assert (∀ n s, (String.length s ≤ n)%nat →
            Forall (fun piece => contains "  " piece = false)
              (split_double_space s)) as H;
    [|by apply (H (String.length s))].
  clear s. induction n as [|n IH]; intros s Hs.
  - destruct s; [by repeat constructor|]. simpl in Hs. lia.
  - destruct s as [|c s]; [by repeat constructor|]. simpl in Hs.
    rewrite split_double_space_step. destruct s as [|d s].
    + constructor; [|done]. cbn. by rewrite andb_false_r.
    + destruct (Ascii.eqb c " " && Ascii.eqb d " ") eqn:E.
      * constructor; [done|]. apply IH. simpl in *. lia.
      * pose proof (IH (String d s) ltac:(lia)) as Hp.
        destruct (split_double_space_head (String d s)) as (h & t & Hht & Hh).
        rewrite Hht in Hp |- *.
        inversion Hp as [|? ? Hc Ht]; subst. constructor; [|done].
        rewrite contains_cons, Hc, orb_false_r. cbn [startswith].
        destruct (Ascii.eqb " " c) eqn:Ec; [|done]. cbn [andb].
        destruct (startswith " " h) eqn:Eh; [|done].
        specialize (Hh eq_refl). cbn [startswith] in Hh.
        rewrite andb_true_r in Hh.
        rewrite (Ascii.eqb_sym c " "), (Ascii.eqb_sym d " "), Ec, Hh in E.
        done.
Qed.

Lemma split_double_space_none s :
  contains "  " s = false → split_double_space s = [s].
Proof.
  induction s as [|c s IH]; [done|]. intros H.
  rewrite contains_cons in H. apply orb_false_elim in H as [Hs Hc].
  rewrite split_double_space_step. destruct s as [|d s]; [done|].
  cbn [startswith] in Hs. rewrite andb_true_r in Hs.
  rewrite (Ascii.eqb_sym c " "), (Ascii.eqb_sym d " "), Hs.
  by rewrite (IH Hc).
Qed.

Lemma startswith_app sub a r :
  startswith sub a = true → startswith sub (a +:+ r) = true.
Proof.
  revert a. induction sub as [|x sub IH]; intros a; [done|].
  destruct a as [|y a]; [done|]. cbn [startswith]. rewrite str_app_cons.
  cbn [startswith]. intros [-> H]%andb_true_iff. by rewrite (IH _ H).
Qed.

Lemma contains_app_l sub a r :
  contains sub (a +:+ r) = false → contains sub a = false.
Proof.
  induction a as [|c a IH].
  - rewrite str_app_nil_l. destruct sub as [|x sub]; [|done].
    by destruct r.
  - rewrite str_app_cons, !contains_cons.
    intros [Hs Hc]%orb_false_elim. rewrite (IH Hc), orb_false_r.
    destruct (startswith sub (String c a)) eqn:E; [|done].
    apply (startswith_app _ _ r) in E. rewrite str_app_cons in E. congruence.
Qed.

Lemma contains_lstrip sub p s :
  contains sub s = false → contains sub (lstrip_p p s) = false.
Proof.
  induction s as [|c s IH]; [done|]. cbn [lstrip_p].
  destruct (p c); [|done]. rewrite contains_cons.
  intros [_ H]%orb_false_elim. auto.
Qed.

Lemma contains_strip sub s :
  contains sub s = false → contains sub (strip s) = false.
Proof.
  intros H. unfold strip, strip_p.
  destruct (rstrip_p_prefix isspace (lstrip_p isspace s)) as (r & Hr & _).
  apply (contains_lstrip _ isspace) in H. rewrite Hr in H.
  by apply contains_app_l in H.
Qed.

Lemma existsb_strip q s : existsb q s = false → existsb q (strip s) = false.
Proof. intros H. by apply existsb_rstrip, existsb_lstrip. Qed.

Lemma chunks_clean text chunk :
  chunk ∈ List.filter (fun chunk => negb (is_empty chunk))
            (List.concat
               (List.map
                  (fun line => List.map strip (split_double_space line))
                  (List.map strip (splitlines text)))) →
  clean_chunk chunk.
Proof.
  intros [Hin Hne]%list_elem_of_In%filter_In.
  apply in_concat in Hin as (pieces & Hp & Hin).
  apply in_map_iff in Hp as (line & <- & Hl).
  apply in_map_iff in Hl as (raw & <- & Hraw%list_elem_of_In).
  apply in_map_iff in Hin as (piece & <- & Hpiece%list_elem_of_In).
  pose proof (splitlines_clean _ _ Hraw) as Hb.
  apply existsb_strip in Hb.
  pose proof (split_double_space_pieces _ _ Hb) as Hb'.
  pose proof (split_double_space_single (strip raw)) as Hd.
  rewrite Forall_forall in Hb', Hd.
  split; [|split; [apply strip_idem|split]].
  - apply is_empty_false. by destruct (is_empty (strip piece)).
  - by apply existsb_strip, Hb'.
  - by apply contains_strip, Hd.
Qed.

Lemma line_pieces_plain x :
  existsb is_line_boundary x = false → line_pieces x = [x].
Proof.
  induction x as [|c x IH]; [done|]. cbn [existsb].
  intros [Hc Hx]%orb_false_elim. rewrite line_pieces_step, Hc.
  by rewrite (IH Hx).
Qed.

Lemma line_pieces_app x rest :
  existsb is_line_boundary x = false →
  line_pieces (x +:+ String "010" rest) = x :: line_pieces rest.
Proof.
  induction x as [|c x IH].
  - intros _. rewrite str_app_nil_l, line_pieces_step.
    change (is_line_boundary "010") with true. cbn iota.
    destruct rest as [|d rest]; [done|].
    by destruct d as [[] [] [] [] [] [] [] []].
  - cbn [existsb]. intros [Hc Hx]%orb_false_elim.
    rewrite str_app_cons, line_pieces_step, Hc. by rewrite (IH Hx).
Qed.

Lemma line_pieces_join chunks :
  chunks ≠ [] → Forall clean_chunk chunks →
  line_pieces (join LF chunks) = chunks.
Proof.
  intros Hne H. induction H as [|x l (_ & _ & Hb & _) Hl IH]; [done|].
  destruct l as [|y l].
  - cbn [join]. by apply line_pieces_plain.
  - change (join LF (x :: y :: l)) with (x +:+ LF +:+ join LF (y :: l)).
    unfold LF at 1. change (String "010" "" +:+ ?r) with (String "010" r).
    rewrite line_pieces_app by done. by rewrite IH.
Qed.

Lemma drop_last_empty_clean chunks :
  Forall clean_chunk chunks → drop_last_empty chunks = chunks.
Proof.
  induction 1 as [|x l (Hne & _) Hl IH]; [done|]. cbn [drop_last_empty].
  destruct x as [|c x]; [done|]. by rewrite IH.
Qed.

Lemma splitlines_join chunks :
  Forall clean_chunk chunks → splitlines (join LF chunks) = chunks.
Proof.
  intros H. destruct chunks as [|x l]; [done|]. unfold splitlines.
  rewrite line_pieces_join by done. by apply drop_last_empty_clean.
Qed.

Lemma clean_chunks_fixed chunks :
  Forall clean_chunk chunks →
  List.filter (fun chunk => negb (is_empty chunk))
    (List.concat
       (List.map (fun line => List.map strip (split_double_space line))
          (List.map strip chunks)))
  = chunks.
Proof.
  induction 1 as [|x l (Hne & Hs & _ & Hd) Hl IH]; [done|].
  cbn [List.map List.concat]. rewrite Hs, (split_double_space_none _ Hd).
  cbn [List.map app List.filter]. rewrite Hs.
  apply is_empty_false in Hne. rewrite Hne. cbn [negb]. by rewrite IH.
Qed.

End Text.

(** X21.  The text [extract_html_text] returns is made of clean lines:
    split into lines again it gives lines that are not empty, have no
    whitespace at either end and no two spaces in a row; a page with no
    such line gives the empty text. *)
Theorem extracted_text_has_clean_lines text :
  ∃ chunks,
    extract_html_text text = Str.join LF chunks
    ∧ Forall clean_chunk chunks
    ∧ splitlines (extract_html_text text) = chunks.
Proof.
  unfold extract_html_text.
  set (chunks := List.filter _ _).
  assert (Forall clean_chunk chunks) as H.
  { apply Forall_forall. intros chunk. apply chunks_clean. }
  exists chunks. split; [done|]. split; [done|]. by apply splitlines_join.
Qed.

(** X22.  Cleaning is idempotent: [extract_html_text] applied to its own
    output gives it back. *)
Theorem extract_html_text_idempotent text :
  extract_html_text (extract_html_text text) = extract_html_text text.
Proof.
  assert (∃ chunks, extract_html_text text = Str.join LF chunks
                    ∧ Forall clean_chunk chunks) as (chunks & -> & H).
  { unfold extract_html_text. set (chunks := List.filter _ _).
    exists chunks. split; [done|].
    apply Forall_forall. intros chunk. apply chunks_clean. }
  unfold extract_html_text at 1.
  rewrite splitlines_join by done. by rewrite clean_chunks_fixed.
Qed.
